(** * conveertaion.py: conversation monitor, summary mailer

    A shallow embedding of [src/conveertaion.py].  Python [str] values are
    lists of Unicode code points; the regular expressions of the source are
    kept as data and run by a backtracking matcher with the semantics of
    Python's [re] module (greedy repetition, [^], [$], [\b]); decoded JSON is
    an inductive type with Python's dynamic operations returning a value or
    raising; calls to the outside world (HTTP, the generative model, SMTP,
    the clock, the audit log) go through a small state-and-exception monad
    that records a trace.

    Calls to [logging], which write to the operational log only, are left
    out.  A [print] is no event of the trace, but it is a step of the
    program: it raises [UnicodeEncodeError] on a text the console cannot
    encode, and which characters the console encodes beyond ASCII is a
    parameter of the world.  Every [print] that writes data is kept, in
    [send_to_gemini], [send_email], [display_conversation_details],
    [process_conversation] with its debugging branch, and the loop of
    [monitor_new_conversations]; a [print] of a literal writes ASCII and is
    left out.  Three things are taken to succeed: writing the text of a
    caught exception ([{e}] in the handlers, and the detail after [Failed - ]
    in the loop), which Python renders with escapes; the lines printed at
    start-up, in [main] and before the loop, and by [get_last_conversation_id]
    when it has found its id; and writing to the audit log.  Composing the
    message in [send_email] raises when [MIMEText] is given a text that UTF-8
    cannot encode; whatever [send_message] raises, for the message or for the
    network, is in the script of the session. *)

From Stdlib Require Import String Ascii List NArith ZArith Bool Lia Arith.
Import ListNotations.

Set Implicit Arguments.
Set Warnings "-register-all".

(* ================================================================== *)
(** ** Text *)

(** A character is a code point, a Python [str] a list of them. *)
Definition char := N.
Definition str := list char.

Definition ch (a : ascii) : char := N_of_ascii a.

(** A string literal of the source. *)
Definition py (s : string) : str := map ch (list_ascii_of_string s).

Definition NL : char := 10%N.

Fixpoint str_eqb (s t : str) : bool :=
  match s, t with
  | [], [] => true
  | c :: s', d :: t' => N.eqb c d && str_eqb s' t'
  | _, _ => false
  end.

(** What Python takes from the Unicode character database for code points
    outside ASCII: [str.isalnum] (behind [\w] and [\b]), [str.isspace]
    (behind [str.strip]) and [str.lower] on a string that is not all ASCII.
    The tables are not part of the repository; they are parameters. *)
Class UnicodeTables := {
  unicode_alnum : char -> bool;
  unicode_space : char -> bool;
  unicode_lower : str -> str
}.

Definition between (lo hi c : char) : bool := N.leb lo c && N.leb c hi.

Definition is_ascii (c : char) : bool := N.ltb c 128%N.

Definition ascii_alnum (c : char) : bool :=
  between (ch "a") (ch "z") c || between (ch "A") (ch "Z") c
  || between (ch "0") (ch "9") c.

(** [\w] of a [str] pattern: alphanumeric or underscore. *)
Definition isword `{UnicodeTables} (c : char) : bool :=
  if is_ascii c then ascii_alnum c || N.eqb c (ch "_") else unicode_alnum c.

(** [str.isspace] on one character: tab, LF, VT, FF, CR, the four
    separators FS GS RS US and the space; beyond ASCII, the table. *)
Definition isspace `{UnicodeTables} (c : char) : bool :=
  if is_ascii c
  then between 9%N 13%N c || between 28%N 31%N c || N.eqb c 32%N
  else unicode_space c.

Definition lower_char (c : char) : char :=
  if between (ch "A") (ch "Z") c then (c + 32)%N else c.

(** [s.lower()]. *)
Definition lower `{UnicodeTables} (s : str) : str :=
  if forallb is_ascii s then map lower_char s else unicode_lower s.

(** [s.strip()]: leading and trailing whitespace removed. *)
Fixpoint lstrip `{UnicodeTables} (s : str) : str :=
  match s with
  | c :: s' => if isspace c then lstrip s' else s
  | [] => []
  end.

Definition strip `{UnicodeTables} (s : str) : str :=
  rev (lstrip (rev (lstrip s))).

(** [s.split(sep)] for a one-character separator: never empty. *)
Fixpoint split_on (sep : char) (s : str) : list str :=
  match s with
  | [] => [[]]
  | c :: s' =>
      if N.eqb c sep then [] :: split_on sep s'
      else match split_on sep s' with
           | l :: ls => (c :: l) :: ls
           | [] => [[c]]
           end
  end.

(** [sep.join(lines)]. *)
Fixpoint join (sep : char) (lines : list str) : str :=
  match lines with
  | [] => []
  | [l] => l
  | l :: ls => l ++ sep :: join sep ls
  end.

(** [s.startswith(p)]. *)
Fixpoint startswith (p s : str) : bool :=
  match p, s with
  | [], _ => true
  | c :: p', d :: s' => N.eqb c d && startswith p' s'
  | _ :: _, [] => false
  end.

(** [s.split(sep, 1)]: at most one split, at the first separator. *)
Fixpoint split_once (sep : char) (s : str) : list str :=
  match s with
  | [] => [[]]
  | c :: s' =>
      if N.eqb c sep then [[]; s']
      else match split_once sep s' with
           | l :: ls => (c :: l) :: ls
           | [] => [[c]]
           end
  end.

(* ================================================================== *)
(** ** Regular expressions *)

(** A bracket expression is a list of ranges and single characters. *)
Inductive cls_item :=
| Rng (lo hi : ascii)
| Chr (c : ascii).

Definition cls := list cls_item.

Definition cls_item_mem (i : cls_item) (c : char) : bool :=
  match i with
  | Rng lo hi => between (ch lo) (ch hi) c
  | Chr d => N.eqb c (ch d)
  end.

Definition cls_mem (k : cls) (c : char) : bool :=
  existsb (fun i => cls_item_mem i c) k.

(** The pattern syntax the source uses: anchors, the word boundary, a literal
    character, and a bracket expression repeated at least [min] times
    ([+] is [{1,}]), greedily. *)
Inductive re_item :=
| Bol                           (* ^  *)
| Eol                           (* $  *)
| WordB                         (* \b *)
| Lit (c : ascii)
| Rep (k : cls) (min : nat).

Definition regex := list re_item.

Section Matcher.
Context `{UnicodeTables}.

(** [$] without MULTILINE: at the end of the string, or just before a
    newline that is the last character. *)
Definition at_end (s : str) : bool :=
  match s with
  | [] => true
  | [c] => N.eqb c NL
  | _ => false
  end.

Definition word_before (prev : option char) : bool :=
  match prev with Some c => isword c | None => false end.

Definition word_after (s : str) : bool :=
  match s with c :: _ => isword c | [] => false end.

(** [\b]: exactly one side of the position is a word character. *)
Definition word_boundary (prev : option char) (s : str) : bool :=
  xorb (word_before prev) (word_after s).

(** Greedy repetition with backtracking: take a character of the class
    while there is one, and give back one at a time until the rest of the
    pattern ([k]) matches.  [prev] is the character before the position. *)
Fixpoint rep (R : Type) (k : cls) (min : nat) (prev : option char) (s : str)
         (cont : option char -> str -> option R) : option R :=
  let stop := match min with O => cont prev s | S _ => None end in
  match s with
  | c :: s' =>
      if cls_mem k c then
        match rep k (pred min) (Some c) s' cont with
        | Some r => Some r
        | None => stop
        end
      else stop
  | [] => stop
  end.

(** [run p prev s]: match [p] at the position before [s]; the result is
    what is left of [s] after the match. *)
Fixpoint run (p : regex) (prev : option char) (s : str) : option str :=
  match p with
  | [] => Some s
  | Bol :: p' =>
      match prev with None => run p' prev s | Some _ => None end
  | Eol :: p' => if at_end s then run p' prev s else None
  | WordB :: p' => if word_boundary prev s then run p' prev s else None
  | Lit c :: p' =>
      match s with
      | d :: s' => if N.eqb d (ch c) then run p' (Some d) s' else None
      | [] => None
      end
  | Rep k min :: p' => rep k min prev s (run p')
  end.

(** [re.match(p, s) is not None]. *)
Definition re_match (p : regex) (s : str) : bool :=
  match run p None s with Some _ => true | None => false end.

(** [p.search(s)] followed by [.group(0)]: the leftmost position where the
    pattern matches, and the text it matches there. *)
Fixpoint search_at (p : regex) (prev : option char) (s : str) : option str :=
  match run p prev s with
  | Some rest => Some (firstn (length s - length rest) s)
  | None =>
      match s with
      | c :: s' => search_at p (Some c) s'
      | [] => None
      end
  end.

Definition re_search (p : regex) (s : str) : option str := search_at p None s.
End Matcher.

(* ================================================================== *)
(** ** Exceptions *)

(** The exception classes the program meets.  [SMTPAuthenticationError] is a
    subclass of [SMTPException]; [UnicodeEncodeError] is what [print] and
    [MIMEText] raise on text they cannot encode; every class here is a
    subclass of [Exception]. *)
Inductive exn_class :=
| IndexError | KeyError | TypeError | AttributeError
| SMTPAuthenticationError | SMTPException | ConnectionError
| RequestException | RetryError | UnicodeEncodeError | OtherException.

(** An exception: its class and [str(e)]. *)
Record exn := Exn { exn_class_of : exn_class; exn_text : str }.

Definition raise_of (c : exn_class) : exn := Exn c [].

Inductive outcome (A : Type) :=
| Returned (a : A)
| Raised (e : exn).
Arguments Returned {A} a.
Arguments Raised {A} e.

Definition obind {A B} (c : outcome A) (k : A -> outcome B) : outcome B :=
  match c with
  | Returned a => k a
  | Raised e => Raised e
  end.

Declare Scope exn_scope.
Delimit Scope exn_scope with exn.
Notation "x <- c ;; k" := (obind c (fun x => k))
  (at level 61, c at next level, right associativity) : exn_scope.

(* ================================================================== *)
(** ** Decoded JSON and Python's dynamic operations on it *)

(** What [response.json()] returns.  A [dict] is its items in insertion
    order, keys distinct; a number is an [int] (a [float] behaves, in every
    operation below, like the [int] 0 when it is zero and like 1 otherwise). *)
Inductive json :=
| JNull
| JBool (b : bool)
| JNum (z : Z)
| JStr (s : str)
| JArr (l : list json)
| JObj (d : list (str * json)).

Fixpoint lookup (k : str) (d : list (str * json)) : option json :=
  match d with
  | [] => None
  | (k', v) :: d' => if str_eqb k k' then Some v else lookup k d'
  end.

(** [bool(v)]. *)
Definition truthy (v : json) : bool :=
  match v with
  | JNull => false
  | JBool b => b
  | JNum z => negb (Z.eqb z 0)
  | JStr s => match s with [] => false | _ => true end
  | JArr l => match l with [] => false | _ => true end
  | JObj d => match d with [] => false | _ => true end
  end.

(** [v.get(key, default)]: only a [dict] has the method. *)
Definition get (v : json) (key : str) (default : json) : outcome json :=
  match v with
  | JObj d => Returned (match lookup key d with Some x => x | None => default end)
  | _ => Raised (raise_of AttributeError)
  end.

(** [v[key]] for a string key. *)
Definition getitem (v : json) (key : str) : outcome json :=
  match v with
  | JObj d => match lookup key d with
              | Some x => Returned x
              | None => Raised (raise_of KeyError)
              end
  | _ => Raised (raise_of TypeError)
  end.

(** [v[0]]. *)
Definition getitem0 (v : json) : outcome json :=
  match v with
  | JArr (x :: _) => Returned x
  | JArr [] => Raised (raise_of IndexError)
  | JStr (c :: _) => Returned (JStr [c])
  | JStr [] => Raised (raise_of IndexError)
  | JObj _ => Raised (raise_of KeyError)
  | _ => Raised (raise_of TypeError)
  end.

(** What [for x in v] goes through: the elements of a list, the keys of a
    dict, the characters of a string. *)
Definition iter (v : json) : outcome (list json) :=
  match v with
  | JArr l => Returned l
  | JObj d => Returned (map (fun kv => JStr (fst kv)) d)
  | JStr s => Returned (map (fun c => JStr [c]) s)
  | _ => Raised (raise_of TypeError)
  end.

Definition num_of_bool (b : bool) : Z := if b then 1%Z else 0%Z.

(** [a == b]. *)
Fixpoint py_eq (a b : json) : bool :=
  match a, b with
  | JNull, JNull => true
  | JBool x, JBool y => Bool.eqb x y
  | JBool x, JNum z => Z.eqb (num_of_bool x) z
  | JNum z, JBool x => Z.eqb z (num_of_bool x)
  | JNum x, JNum y => Z.eqb x y
  | JStr s, JStr t => str_eqb s t
  | JArr l, JArr m =>
      (fix all2 (l m : list json) : bool :=
         match l, m with
         | [], [] => true
         | x :: l', y :: m' => py_eq x y && all2 l' m'
         | _, _ => false
         end) l m
  | JObj d, JObj e =>
      Nat.eqb (length d) (length e)
      && forallb (fun kv => match lookup (fst kv) e with
                            | Some w => py_eq (snd kv) w
                            | None => false
                            end) d
  | _, _ => false
  end.

(** [key in v] for a string key. *)
Fixpoint substring (p s : str) : bool :=
  startswith p s || match s with _ :: s' => substring p s' | [] => false end.

Definition contains (v : json) (key : str) : outcome bool :=
  match v with
  | JObj d => Returned (match lookup key d with Some _ => true | None => false end)
  | JArr l => Returned (existsb (fun x => py_eq x (JStr key)) l)
  | JStr s => Returned (substring key s)
  | _ => Raised (raise_of TypeError)
  end.

(* ================================================================== *)
(** ** E-mail validation and the model's response *)

Definition local_cls : cls :=
  [Rng "a" "z"; Rng "A" "Z"; Rng "0" "9"; Chr "."; Chr "_"; Chr "%"; Chr "+"; Chr "-"].
Definition domain_cls : cls :=
  [Rng "a" "z"; Rng "A" "Z"; Rng "0" "9"; Chr "."; Chr "-"].
Definition tld_cls : cls := [Rng "a" "z"; Rng "A" "Z"].

(** [r'^[a-zA-Z0-9._%+-]+@[a-zA-Z0-9.-]+\.[a-zA-Z]{2,}$'] *)
Definition validate_pattern : regex :=
  [Bol; Rep local_cls 1; Lit "@"; Rep domain_cls 1; Lit "."; Rep tld_cls 2; Eol].

(** [r'\b[A-Za-z0-9._%+-]+@[A-Za-z0-9.-]+\.[A-Z|a-z]{2,}\b'] (the bar
    inside the last bracket expression is a member of the class). *)
Definition email_pattern : regex :=
  [WordB;
   Rep [Rng "A" "Z"; Rng "a" "z"; Rng "0" "9"; Chr "."; Chr "_"; Chr "%"; Chr "+"; Chr "-"] 1;
   Lit "@";
   Rep [Rng "A" "Z"; Rng "a" "z"; Rng "0" "9"; Chr "."; Chr "-"] 1;
   Lit ".";
   Rep [Rng "A" "Z"; Chr "|"; Rng "a" "z"] 2;
   WordB].

Section Extraction.
Context `{UnicodeTables}.
Local Open Scope exn_scope.

(** [re.match(pattern, v)] and [pattern.search(v)] want a [str]. *)
Definition re_match_value (p : regex) (v : json) : outcome bool :=
  match v with
  | JStr s => Returned (re_match p s)
  | _ => Raised (raise_of TypeError)
  end.

Definition re_search_value (p : regex) (v : json) : outcome (option str) :=
  match v with
  | JStr s => Returned (re_search p s)
  | _ => Raised (raise_of TypeError)
  end.

(** [v.lower()]. *)
Definition lower_value (v : json) : outcome str :=
  match v with
  | JStr s => Returned (lower s)
  | _ => Raised (raise_of AttributeError)
  end.

Definition validate_email (email : json) : outcome bool :=
  if negb (truthy email) then Returned false
  else re_match_value validate_pattern email.

(** [l[1]]. *)
Definition index1 (l : list str) : outcome str :=
  match l with
  | _ :: x :: _ => Returned x
  | _ => Raised (raise_of IndexError)
  end.

(** The test both response functions make on a line's address. *)
Definition usable (email : str) : outcome bool :=
  match email with
  | [] => Returned false
  | _ => if negb (str_eqb email (py "None")) then validate_email (JStr email)
         else Returned false
  end.

Fixpoint first_email_line (lines : list str) : outcome (option str) :=
  match lines with
  | [] => Returned None
  | line :: rest =>
      if startswith (py "Email:") line then
        field <- index1 (split_once (ch ":") line) ;;
        let email := strip field in
        ok <- usable email ;;
        if ok then Returned (Some (lower email)) else first_email_line rest
      else first_email_line rest
  end.

Definition extract_email_from_gemini_response (gemini_response : str)
  : option str :=
  match gemini_response with
  | [] => None
  | _ =>
      match first_email_line (split_on NL gemini_response) with
      | Returned r => r
      | Raised _ => None
      end
  end.

(** One turn of the loop over [enumerate(lines)]: the new [lines[i]]. *)
Definition lowercase_line (line : str) : outcome str :=
  if startswith (py "Email:") line then
    field <- index1 (split_once (ch ":") line) ;;
    let email := strip field in
    ok <- usable email ;;
    if ok then Returned (py "Email: " ++ lower email) else Returned line
  else Returned line.

Fixpoint lowercase_lines (lines : list str) : outcome (list str) :=
  match lines with
  | [] => Returned []
  | line :: rest =>
      line' <- lowercase_line line ;;
      rest' <- lowercase_lines rest ;;
      Returned (line' :: rest')
  end.

Definition lowercase_gemini_response (gemini_response : str) : str :=
  match gemini_response with
  | [] => gemini_response
  | _ =>
      match lowercase_lines (split_on NL gemini_response) with
      | Returned lines => join NL lines
      | Raised _ => gemini_response
      end
  end.

(** The loop over the transcript entries. *)
Fixpoint scan_transcript (entries : list json) : outcome (option str) :=
  match entries with
  | [] => Returned None
  | entry :: rest =>
      message <- get entry (py "message") (JStr []) ;;
      found <- re_search_value email_pattern message ;;
      match found with
      | Some group0 =>
          ok <- validate_email (JStr group0) ;;
          if ok then Returned (Some (lower group0)) else scan_transcript rest
      | None => scan_transcript rest
      end
  end.

(** The body of the [try] block. *)
Definition extract_customer_email_body (conversation_data : json)
  : outcome (option str) :=
  client_data <- get conversation_data (py "conversation_initiation_client_data") (JObj []) ;;
  email <- get client_data (py "email") JNull ;;
  ok <- (if truthy email then validate_email email else Returned false) ;;
  if ok then
    e <- lower_value email ;; Returned (Some e)
  else
    transcript <- get conversation_data (py "transcript") (JArr []) ;;
    entries <- iter transcript ;;
    scan_transcript entries.

(** [extract_customer_email]: the result, or the exception that leaves it
    (none does: the handler catches [Exception]). *)
Definition extract_customer_email (conversation_data : json)
  : outcome (option str) :=
  match extract_customer_email_body conversation_data with
  | Returned r => Returned r
  | Raised _ => Returned None
  end.
End Extraction.

(* ================================================================== *)
(** ** The outside world *)

(** How one SMTP session answers each call made on it ([None]: the call
    returns; [Some e]: it raises [e]). *)
Record smtp_script := {
  on_connect : option exn;        (* smtplib.SMTP(host, port, timeout=10) *)
  on_starttls : option exn;
  on_login : option exn;
  on_send_message : option exn;
  on_quit : option exn
}.

(** The configuration read at start-up and the answers of the services, by
    the number of the call. *)
Record env := {
  SMTP_EMAIL : option str;
  SMTP_APP_PASSWORD : option str;
  (** GET on the list end point: the decoded body, or what was raised *)
  http_list : nat -> outcome json;
  (** GET on the detail end point *)
  http_details : nat -> outcome json;
  (** [model.generate_content(prompt)] and the read of [response.text] *)
  generate_content : nat -> outcome str;
  (** the n-th [smtplib.SMTP] object *)
  smtp : nat -> smtp_script;
  (** the characters outside ASCII that the encoding of the console has *)
  console : char -> bool
}.

(** [f"{v}"] and the text [display_conversation_details] composes (dates go
    through [datetime] and [pytz]) are Python's; the program only passes them
    on.  [display_conversation_details] catches every exception of its own.
    So are the messages of the [UnicodeEncodeError] that [print] raises on a
    text the console cannot encode, and [MIMEText] on a text that UTF-8
    cannot. *)
Class Rendering := {
  format_value : json -> str;
  conversation_text_of : json -> json -> str;
  console_error : str -> str;
  utf8_error : str -> str
}.

(** Calls counted so far, and the local variable [server] of [send_email]
    (the number of the session it is bound to). *)
Record world := {
  n_list : nat;
  n_details : nat;
  n_generate : nat;
  n_smtp : nat;
  server : option nat
}.

Inductive smtp_op := Connect | StartTls | Login | SendMessage | Quit.

(** A line written to [conversation_emails.log]. *)
Inductive log_line :=
| SummaryEmailStatus (conversation_id : json) (status : bool) (error : str)
| ConversationEmail (conversation_id : json) (email : str)
| ConversationDetails (conversation_id : json) (conversation_text : str)
| GeminiSummary (conversation_id : json) (gemini_response : str).

(** What the program does to the outside, in order. *)
Inductive event :=
| GetConversations (page_size : nat)
| GetConversation (conversation_id : json)
| GenerateContent (prompt : str)
| Smtp (session : nat) (op : smtp_op) (raised : option exn)
| Message (to_email : str) (summary : str) (conversation_id : json)
| Sleep (seconds : nat)
| LogWrite (line : log_line).

(** State, exceptions and the trace. *)
Definition M (A : Type) : Type := world -> outcome A * world * list event.

Definition ret {A} (a : A) : M A := fun w => (Returned a, w, []).

Definition raise {A} (e : exn) : M A := fun w => (Raised e, w, []).

Definition bind {A B} (c : M A) (k : A -> M B) : M B :=
  fun w =>
    match c w with
    | (Returned a, w', t) =>
        match k a w' with (r, w'', t') => (r, w'', t ++ t') end
    | (Raised e, w', t) => (Raised e, w', t)
    end.

Definition lift {A} (o : outcome A) : M A := fun w => (o, w, []).

Definition emit (ev : event) : M unit := fun w => (Returned tt, w, [ev]).

(** [try: c  finally: fin]. *)
Definition try_finally {A} (c : M A) (fin : M unit) : M A :=
  fun w =>
    match c w with
    | (r, w', t) =>
        match fin w' with
        | (Returned _, w'', t') => (r, w'', t ++ t')
        | (Raised e, w'', t') => (Raised e, w'', t ++ t')
        end
    end.

Declare Scope io_scope.
Delimit Scope io_scope with io.
Notation "x <- c ;; k" := (bind c (fun x => k))
  (at level 61, c at next level, right associativity) : io_scope.
Notation "c ;; k" := (bind c (fun _ => k))
  (at level 61, right associativity) : io_scope.

Definition is_exception (e : exn) : bool := true.

Definition is_class (c : exn_class) (e : exn) : bool :=
  match c, exn_class_of e with
  | IndexError, IndexError | KeyError, KeyError | TypeError, TypeError
  | AttributeError, AttributeError
  | SMTPAuthenticationError, SMTPAuthenticationError
  | SMTPException, SMTPException | SMTPException, SMTPAuthenticationError
  | ConnectionError, ConnectionError | RetryError, RetryError
  | RequestException, RequestException
  | UnicodeEncodeError, UnicodeEncodeError
  | OtherException, OtherException => true
  | _, _ => false
  end.

(** [time.sleep(seconds)]. *)
Definition sleep (seconds : nat) : M unit := emit (Sleep seconds).

(** tenacity's [@retry(stop=stop_after_attempt(n), wait=wait_fixed(s),
    retry=retry_if_exception_type(...))]: call [f]; when it raises an
    exception of a retried class, sleep and call it again, until the n-th
    attempt has failed, then raise [RetryError]; an exception of another class
    goes through; a return value ends the loop. *)
Fixpoint retry {A} (stop_after_attempt wait_fixed : nat)
         (retry_if_exception_type : exn -> bool) (f : M A) : M A :=
  fun w =>
    match f w with
    | (Returned a, w', t) => (Returned a, w', t)
    | (Raised e, w', t) =>
        if retry_if_exception_type e then
          match stop_after_attempt with
          | S ((S _) as more) =>
              match (sleep wait_fixed ;;
                     retry more wait_fixed retry_if_exception_type f)%io w' with
              | (r, w'', t') => (r, w'', t ++ t')
              end
          | _ => (Raised (raise_of RetryError), w', t)
          end
        else (Raised e, w', t)
    end.

(** [try: c  except A: hA  except B: hB ...]: the first clause whose class
    matches handles the exception. *)
Fixpoint select_handler {A} (clauses : list ((exn -> bool) * (exn -> M A)))
         (e : exn) : option (M A) :=
  match clauses with
  | [] => None
  | (catches, handler) :: rest =>
      if catches e then Some (handler e) else select_handler rest e
  end.

Definition try_clauses {A} (c : M A)
           (clauses : list ((exn -> bool) * (exn -> M A))) : M A :=
  fun w =>
    match c w with
    | (Raised e, w', t) =>
        match select_handler clauses e with
        | Some h => match h w' with (r, w'', t') => (r, w'', t ++ t') end
        | None => (Raised e, w', t)
        end
    | r => r
    end.

(** Truth value of a result that is [None] or a [str]. *)
Definition truthy_opt (o : option str) : bool :=
  match o with
  | Some (_ :: _) => true
  | _ => false
  end.

Definition RECIPIENT : str := py "ashimlugun09@gmail.com".

Definition quote : str := [34%N].

(** The first argument of the debugging branch of [process_conversation]. *)
Definition DEBUG_ID : str := py "conv_01jxvvk0kvfspb2p808vwxwb0m".

(** A field of an f-string, and [str(v)]: a [str] as it is, any other value
    as Python renders it. *)
Definition fstring `{Rendering} (v : json) : str :=
  match v with
  | JStr s => s
  | _ => format_value v
  end.

(** The console encodes the text: every encoding has ASCII. *)
Definition printable (E : env) (text : str) : bool :=
  forallb (fun c => is_ascii c || console E c) text.

(** What [print(text)] does to the program: nothing, or a
    [UnicodeEncodeError] on a text the console cannot encode. *)
Definition console_write `{Rendering} (E : env) (text : str) : outcome unit :=
  if printable E text then Returned tt
  else Raised (Exn UnicodeEncodeError (console_error text)).

(** A code point that UTF-8 does not encode. *)
Definition is_surrogate (c : char) : bool :=
  N.leb 55296 c && N.leb c 57343.

Section Program.
Context `{UnicodeTables} `{Rendering}.
Variable E : env.
Local Open Scope io_scope.

(** [print(text)]: the text goes to the console, which is no part of the
    trace; the call raises when the console cannot encode it. *)
Definition print (text : str) : M unit := lift (console_write E text).

(** [MIMEText(text, subtype)]: with no charset given the text is encoded as
    ASCII or else as UTF-8, which raises on a surrogate. *)
Definition MIMEText (text : str) : M unit :=
  if existsb is_surrogate text
  then raise (Exn UnicodeEncodeError (utf8_error text))
  else ret tt.

(** *** Conversation Fetcher *)

Definition fetch_conversations (page_size : nat) : M json :=
  fun w =>
    let w' := {| n_list := S (n_list w); n_details := n_details w;
                 n_generate := n_generate w; n_smtp := n_smtp w;
                 server := server w |} in
    match http_list E (n_list w) with
    | Returned j => (Returned j, w', [GetConversations page_size])
    | Raised e =>
        if is_class RequestException e
        then (Returned JNull, w', [GetConversations page_size])
        else (Raised e, w', [GetConversations page_size])
    end.

Definition fetch_conversation_details (conversation_id : json) : M json :=
  fun w =>
    let w' := {| n_list := n_list w; n_details := S (n_details w);
                 n_generate := n_generate w; n_smtp := n_smtp w;
                 server := server w |} in
    match http_details E (n_details w) with
    | Returned j => (Returned j, w', [GetConversation conversation_id])
    | Raised e =>
        if is_class RequestException e
        then (Returned JNull, w', [GetConversation conversation_id])
        else (Raised e, w', [GetConversation conversation_id])
    end.

(** *** Summary Generator *)

Definition transcript_line (entry : json) : outcome str :=
  (t <- get entry (py "time_in_call_secs") (JNum 0) ;;
   r <- get entry (py "role") (JStr (py "Unknown")) ;;
   m <- get entry (py "message") (JStr []) ;;
   Returned (py "[" ++ format_value t ++ py "s] " ++ format_value r ++ py ": "
             ++ format_value (if truthy m then m
                              else JStr (py "No message (e.g., tool call)"))))%exn.

Fixpoint transcript_lines (entries : list json) : outcome (list str) :=
  match entries with
  | [] => Returned []
  | entry :: rest =>
      (l <- transcript_line entry ;;
       ls <- transcript_lines rest ;;
       Returned (l :: ls))%exn
  end.

Definition prompt_of (transcript_text : str) : str :=
  py "Analyze the following conversation transcript and perform these tasks:" ++ [NL]
  ++ py "1. Extract the email address mentioned in the transcript, if any." ++ [NL]
  ++ py "If it has a hyphen, remove that hyphen and give output in lowercase." ++ [NL]
  ++ py "2. Provide a concise summary of the conversation." ++ [NL]
  ++ [NL]
  ++ py "Transcript:" ++ [NL]
  ++ transcript_text ++ [NL]
  ++ [NL]
  ++ py "Output format:" ++ [NL]
  ++ py "Email: [email address or " ++ quote ++ py "None" ++ quote ++ py "]" ++ [NL]
  ++ py "Summary: [summary of the conversation]" ++ [NL].

(** [model.generate_content(prompt)], then [response.text]. *)
Definition generate (prompt : str) : M str :=
  fun w =>
    (generate_content E (n_generate w),
     {| n_list := n_list w; n_details := n_details w;
        n_generate := S (n_generate w); n_smtp := n_smtp w;
        server := server w |},
     [GenerateContent prompt]).

(** The function under the decorator. *)
Definition send_to_gemini_call (transcript : json) : M (option str) :=
  try_clauses
    (if negb (truthy transcript) then ret None
     else
       lines <- lift (entries <- iter transcript ;; transcript_lines entries)%exn ;;
       text <- generate (prompt_of (join NL lines)) ;;
       match text with
       | _ :: _ =>
           print (py "Debug: Gemini API response: " ++ text) ;;
           ret (Some (lowercase_gemini_response text))
       | [] => ret None
       end)
    [(is_exception, fun _ => ret None)].

Definition send_to_gemini (transcript : json) : M (option str) :=
  retry 3 2 is_exception (send_to_gemini_call transcript).

(** *** Notifier *)

Definition script_of (op : smtp_op) (s : smtp_script) : option exn :=
  match op with
  | Connect => on_connect s
  | StartTls => on_starttls s
  | Login => on_login s
  | SendMessage => on_send_message s
  | Quit => on_quit s
  end.

Definition set_server (s : option nat) : M unit :=
  fun w =>
    (Returned tt,
     {| n_list := n_list w; n_details := n_details w;
        n_generate := n_generate w; n_smtp := n_smtp w; server := s |},
     []).

Definition get_server : M (option nat) := fun w => (Returned (server w), w, []).

(** [smtplib.SMTP(SMTP_SERVER, SMTP_PORT, timeout=10)]: the next session. *)
Definition smtp_new : M nat :=
  fun w =>
    let i := n_smtp w in
    let w' := {| n_list := n_list w; n_details := n_details w;
                 n_generate := n_generate w; n_smtp := S i;
                 server := server w |} in
    match on_connect (smtp E i) with
    | None => (Returned i, w', [Smtp i Connect None])
    | Some e => (Raised e, w', [Smtp i Connect (Some e)])
    end.

(** A method call on the session object. *)
Definition smtp_call (i : nat) (op : smtp_op) : M unit :=
  emit (Smtp i op (script_of op (smtp E i))) ;;
  match script_of op (smtp E i) with
  | None => ret tt
  | Some e => raise e
  end.

Definition missing (v : option str) : bool := negb (truthy_opt v).

(** [summary or "No summary available."]. *)
Definition summary_text (summary : str) : str :=
  match summary with
  | [] => py "No summary available."
  | _ => summary
  end.

(** The HTML part of the message. *)
Definition html_message (summary : str) (conversation_id : json) : str :=
  py "<h2>Conversation Summary</h2><p>" ++ summary_text summary ++ py "</p>"
  ++ py "<p>Conversation ID: " ++ fstring conversation_id
  ++ py "</p><p>Best regards,<br>The Hotel Team</p>".

(** The line printed on entry. *)
Definition entering (to_email : str) (conversation_id : json) : str :=
  py "Debug: Entering send_email(to_email=" ++ to_email
  ++ py ", conversation_id=" ++ fstring conversation_id ++ py ")".

(** The function under the decorator.  Its first [print] stands before the
    [try]; the later ones write the recipient again and, in the last
    handler, the text of the exception. *)
Definition send_email_call (to_email summary : str) (conversation_id : json)
  : M (bool * str) :=
  print (entering to_email conversation_id) ;;
  set_server None ;;
  try_finally
    (try_clauses
       (if missing (SMTP_EMAIL E) || missing (SMTP_APP_PASSWORD E)
        then ret (false, py "Missing SMTP credentials")
        else
          ok <- lift (validate_email (JStr to_email)) ;;
          if negb ok then
            print (py "Debug: Invalid email address: " ++ to_email) ;;
            ret (false, py "Invalid email address")
          else
            MIMEText (summary_text summary) ;;
            MIMEText (html_message summary conversation_id) ;;
            i <- smtp_new ;;
            set_server (Some i) ;;
            smtp_call i StartTls ;;
            smtp_call i Login ;;
            smtp_call i SendMessage ;;
            emit (Message to_email (summary_text summary) conversation_id) ;;
            print (py "Debug: Email sent successfully to " ++ to_email) ;;
            ret (true, py "Success"))
       [(is_class SMTPAuthenticationError,
          fun _ =>
            print (py "Debug: SMTP authentication failed for " ++ to_email) ;;
            ret (false, py "Authentication error"));
        (is_exception,
          fun e =>
            print (py "Debug: Error sending email to " ++ to_email ++ py ": ") ;;
            ret (false, exn_text e))])
    (s <- get_server ;;
     match s with
     | Some i => try_clauses (smtp_call i Quit) [(is_exception, fun _ => ret tt)]
     | None => ret tt
     end).

Definition send_email (to_email summary : str) (conversation_id : json)
  : M (bool * str) :=
  retry 3 2 (fun e => is_class SMTPException e || is_class ConnectionError e)
        (send_email_call to_email summary conversation_id).

(** *** Monitor Loop *)

Definition is_done (conversation_details : json) : M bool :=
  if truthy conversation_details then
    status <- lift (get conversation_details (py "status") JNull) ;;
    ret (py_eq status (JStr (py "done")))
  else ret false.

(** The [for] loop of [get_last_conversation_id]. *)
Fixpoint first_done (conversations : list json) : M json :=
  match conversations with
  | [] => ret JNull
  | conversation :: rest =>
      conversation_id <- lift (getitem conversation (py "conversation_id")) ;;
      conversation_details <- fetch_conversation_details conversation_id ;;
      done <- is_done conversation_details ;;
      if done then ret conversation_id else first_done rest
  end.

(** [not data or "conversations" not in data]. *)
Definition no_conversations_key (conversations_data : json) : M bool :=
  if negb (truthy conversations_data) then ret true
  else
    has <- lift (contains conversations_data (py "conversations")) ;;
    ret (negb has).

Definition get_last_conversation_id : M json :=
  conversations_data <- fetch_conversations 10 ;;
  nokey <- no_conversations_key conversations_data ;;
  if nokey then ret JNull
  else
    conversations <- lift (getitem conversations_data (py "conversations")) ;;
    if negb (truthy conversations) then ret JNull
    else
      l <- lift (iter conversations) ;;
      first_done l.

(** The debugging branch prints the details through [json.dumps], whose
    output is ASCII, then the status and the transcript as they are. *)
Definition process_conversation (conversation_details conversation_id : json)
  : M (str * option str * option str) :=
  (if py_eq conversation_id (JStr DEBUG_ID) then
     status <- lift (get conversation_details (py "status")
                         (JStr (py "Unknown"))) ;;
     print (py "Debug: Status: " ++ fstring status) ;;
     transcript <- lift (get conversation_details (py "transcript") (JArr [])) ;;
     print (py "Debug: Transcript: " ++ fstring transcript)
   else ret tt) ;;
  transcript <- lift (get conversation_details (py "transcript") (JArr [])) ;;
  gemini_response <- (if truthy transcript then send_to_gemini transcript
                      else ret None) ;;
  email <- lift (extract_customer_email conversation_details) ;;
  (match email with
   | Some ((_ :: _) as e) => print (py "Extracted Email: " ++ e)
   | _ => print (py "No email found for " ++ fstring conversation_id)
   end) ;;
  (match gemini_response with
   | Some ((_ :: _) as summary) =>
       print (py "Gemini Summary for " ++ fstring conversation_id ++ py ":"
              ++ [NL] ++ summary)
   | _ => print (py "No Gemini summary generated for " ++ fstring conversation_id)
   end) ;;
  ret (conversation_text_of conversation_details conversation_id,
       email, gemini_response).

Definition log_write (l : log_line) : M unit := emit (LogWrite l).

(** What the loop does for a new completed conversation, after it has set
    [last_conversation_id].  The [print] after the status line writes
    [Success], or [Failed - ] and the detail [send_email] returned, a literal
    or the text of an exception: it is taken to succeed. *)
Definition handle_new (conversation_details conversation_id : json) : M unit :=
  r <- process_conversation conversation_details conversation_id ;;
  let '(conversation_text, email, gemini_response) := r in
  (match gemini_response with
   | Some ((_ :: _) as summary) =>
       print (py "Sending summary for conversation " ++ fstring conversation_id
              ++ py " to ashimlugun09@gmail.com") ;;
       st <- send_email RECIPIENT summary conversation_id ;;
       log_write (SummaryEmailStatus conversation_id (fst st) (snd st))
   | _ => print (py "No Gemini summary to send for " ++ fstring conversation_id
                 ++ py " to ashimlugun09@gmail.com")
   end) ;;
  (match email with
   | Some ((_ :: _) as e) =>
       log_write (ConversationEmail conversation_id e) ;;
       print (py "Logged email for " ++ fstring conversation_id ++ py ": " ++ e)
   | _ => ret tt
   end) ;;
  log_write (ConversationDetails conversation_id conversation_text) ;;
  print (py "Logged conversation details for " ++ fstring conversation_id) ;;
  (match gemini_response with
   | Some ((_ :: _) as summary) =>
       log_write (GeminiSummary conversation_id summary) ;;
       print (py "Logged Gemini summary for " ++ fstring conversation_id)
   | _ => ret tt
   end).

(** One turn of [while True]: the new [last_conversation_id]. *)
Definition monitor_cycle (poll_interval : nat) (last_conversation_id : json)
  : M json :=
  conversations_data <- fetch_conversations 1 ;;
  nokey <- no_conversations_key conversations_data ;;
  if nokey then sleep poll_interval ;; ret last_conversation_id
  else
    conversations <- lift (getitem conversations_data (py "conversations")) ;;
    if negb (truthy conversations)
    then sleep poll_interval ;; ret last_conversation_id
    else
      latest_conversation <- lift (getitem0 conversations) ;;
      conversation_id <- lift (getitem latest_conversation (py "conversation_id")) ;;
      last' <- (if negb (py_eq conversation_id last_conversation_id) then
                  conversation_details <- fetch_conversation_details conversation_id ;;
                  done <- is_done conversation_details ;;
                  if done then
                    print ([NL] ++ py "New conversation (ID: "
                           ++ fstring conversation_id ++ py "):") ;;
                    handle_new conversation_details conversation_id ;;
                    ret conversation_id
                  else ret last_conversation_id
                else ret last_conversation_id) ;;
      sleep poll_interval ;;
      ret last'.

(** The first [cycles] turns of the loop. *)
Fixpoint monitor_loop (cycles poll_interval : nat) (last_conversation_id : json)
  : M json :=
  match cycles with
  | O => ret last_conversation_id
  | S n =>
      last' <- monitor_cycle poll_interval last_conversation_id ;;
      monitor_loop n poll_interval last'
  end.

(** [monitor_new_conversations], watched for [cycles] turns. *)
Definition monitor_new_conversations (cycles poll_interval : nat) : M json :=
  last_conversation_id <- get_last_conversation_id ;;
  monitor_loop cycles poll_interval last_conversation_id.
End Program.

Definition start : world :=
  {| n_list := 0; n_details := 0; n_generate := 0; n_smtp := 0; server := None |}.

(* ================================================================== *)
(** ** Start-up and display *)

(** What [display_conversation_details] takes from the Python runtime: the
    start time as text ([datetime.fromtimestamp(v, tz=pytz.UTC)], moved to
    [Asia/Kolkata] and formatted, which raises on a value that is no time
    stamp), and the text of an exception in an f-string. *)
Class Display := {
  start_time_text : json -> outcome str;
  error_text : exn -> str
}.

Section Startup.
Context `{UnicodeTables} `{Rendering} `{Display}.
Variable E : env.
Variables ELEVEN_LABS_API_KEY GEMINI_API_KEY : option str.
Local Open Scope io_scope.


(** One turn of the loop over the transcript: the text added. *)
Definition display_line (entry : json) : outcome str :=
  (role <- get entry (py "role") (JStr (py "Unknown")) ;;
   message <- get entry (py "message") (JStr []) ;;
   time_in_call <- get entry (py "time_in_call_secs") (JNum 0) ;;
   Returned (py "[" ++ format_value time_in_call ++ py "s] " ++ format_value role
             ++ py ": "
             ++ format_value (if truthy message then message
                              else JStr (py "No message (e.g., tool call)"))
             ++ [NL]))%exn.

Fixpoint display_lines (entries : list json) : outcome (list str) :=
  match entries with
  | [] => Returned []
  | entry :: rest =>
      (l <- display_line entry ;;
       ls <- display_lines rest ;;
       Returned (l :: ls))%exn
  end.

Definition display_header (conversation_id status start_time call_duration : str)
  : str :=
  py "Conversation Details (ID: " ++ conversation_id ++ py "):" ++ [NL]
  ++ py "Status: " ++ status ++ [NL]
  ++ py "Start Time: " ++ start_time ++ [NL]
  ++ py "Call Duration: " ++ call_duration ++ py " seconds" ++ [NL]
  ++ py "Transcript:" ++ [NL].

(** The body of the [try] block. *)
Definition display_conversation_details_body (conversation_data conversation_id : json)
  : outcome (str * json) :=
  (transcript <- get conversation_data (py "transcript") (JArr []) ;;
   status <- get conversation_data (py "status") (JStr (py "Unknown")) ;;
   metadata <- get conversation_data (py "metadata") (JObj []) ;;
   start_time_unix <- get metadata (py "start_time_unix_secs") (JNum 0) ;;
   metadata' <- get conversation_data (py "metadata") (JObj []) ;;
   call_duration <- get metadata' (py "call_duration_secs") (JNum 0) ;;
   start_time <- (if truthy start_time_unix then start_time_text start_time_unix
                  else Returned (py "Unknown")) ;;
   let conversation_text :=
     display_header (format_value conversation_id) (format_value status)
                    start_time (format_value call_duration) in
   conversation_text <-
     (if negb (truthy transcript) then
        Returned (conversation_text ++ py "No transcript available." ++ [NL])
      else
        entries <- iter transcript ;;
        lines <- display_lines entries ;;
        Returned (conversation_text ++ concat lines)) ;;
   _ <- console_write E conversation_text ;;
   Returned (conversation_text, transcript))%exn.

(** [display_conversation_details]: the text and the transcript, or the
    error text and an empty list. *)
Definition display_conversation_details (conversation_data conversation_id : json)
  : str * json :=
  match display_conversation_details_body conversation_data conversation_id with
  | Returned r => r
  | Raised e => (py "Error displaying conversation details: " ++ error_text e, JArr [])
  end.

End Startup.

(** Tables for text that stays within ASCII, where no function consults
    them. *)
Definition no_unicode : UnicodeTables :=
  {| unicode_alnum := fun _ => false;
     unicode_space := fun _ => false;
     unicode_lower := fun s => s |}.

(* ================================================================== *)
(** ** What a pattern matches *)

(** The character before the position after [m] has been read. *)
Definition prev_after (prev : option char) (m : str) : option char :=
  fold_left (fun _ c => Some c) m prev.

(** [matches p prev m rest]: read at a position whose previous character is
    [prev] and where [m ++ rest] follows, pattern [p] can match exactly [m]. *)
Inductive matches `{UnicodeTables} : regex -> option char -> str -> str -> Prop :=
| m_nil prev rest : matches [] prev [] rest
| m_bol p m rest :
    matches p None m rest -> matches (Bol :: p) None m rest
| m_eol p prev m rest :
    at_end (m ++ rest) = true -> matches p prev m rest ->
    matches (Eol :: p) prev m rest
| m_wordb p prev m rest :
    word_boundary prev (m ++ rest) = true -> matches p prev m rest ->
    matches (WordB :: p) prev m rest
| m_lit c p prev m rest :
    matches p (Some (ch c)) m rest -> matches (Lit c :: p) prev (ch c :: m) rest
| m_rep k min p prev m1 m2 rest :
    forallb (cls_mem k) m1 = true -> min <= length m1 ->
    matches p (prev_after prev m1) m2 rest ->
    matches (Rep k min :: p) prev (m1 ++ m2) rest.

(** The shape [local@domain.tld]: a local part, an at sign, a domain, a dot
    and a top-level domain of at least two letters, each part drawn from the
    characters the validation pattern lists for it. *)
Definition email_shape (s : str) : Prop :=
  exists loc dom tld,
    s = loc ++ ch "@" :: dom ++ ch "." :: tld
    /\ 1 <= length loc /\ forallb (cls_mem local_cls) loc = true
    /\ 1 <= length dom /\ forallb (cls_mem domain_cls) dom = true
    /\ 2 <= length tld /\ forallb (cls_mem tld_cls) tld = true.

Section ResponseLines.
Context `{UnicodeTables}.

(** The address a line holds after its [Email:] label. *)
Definition field_of (line : str) : str := strip (skipn 6 line).

(** An address the response functions act on: not empty, not the word
    [None], and accepted by the validation pattern. *)
Definition usable_address (a : str) : bool :=
  match a with
  | [] => false
  | _ => negb (str_eqb a (py "None")) && re_match validate_pattern a
  end.

(** What becomes of one line of the response: a line that starts with
    [Email:] and holds a usable address is written anew, as the label, one
    space and the address in lower case; any other line is kept. *)
Definition rewritten_line (line : str) : str :=
  if startswith (py "Email:") line && usable_address (field_of line)
  then py "Email: " ++ lower (field_of line)
  else line.
End ResponseLines.

(** A character an address can hold. *)
Definition email_char (c : char) : bool :=
  cls_mem local_cls c || N.eqb c (ch "@").

Section PriorityOrder.
Context `{UnicodeTables}.

Definition valid (a : str) : bool :=
  match a with
  | [] => false
  | _ => re_match validate_pattern a
  end.

(** The first match of the e-mail pattern across the message texts. *)
Fixpoint first_match (messages : list str) : option str :=
  match messages with
  | [] => None
  | m :: rest =>
      match re_search email_pattern m with
      | Some group0 => Some group0
      | None => first_match rest
      end
  end.

(** The priority order in words: the metadata address when it is valid,
    otherwise the first match across the transcript when that is valid,
    each in lower case; otherwise nothing. *)
Definition priority_order (metadata_email : option str) (messages : list str)
  : option str :=
  let from_transcript :=
    match first_match messages with
    | Some group0 => if valid group0 then Some (lower group0) else None
    | None => None
    end in
  match metadata_email with
  | Some e => if valid e then Some (lower e) else from_transcript
  | None => from_transcript
  end.

(** The order as the code goes through the transcript: message by message,
    the first match of a message counts when it validates, and the search
    goes on to the next message when it does not. *)
Fixpoint first_valid_match (messages : list str) : option str :=
  match messages with
  | [] => None
  | m :: rest =>
      match re_search email_pattern m with
      | Some group0 =>
          if valid group0 then Some group0 else first_valid_match rest
      | None => first_valid_match rest
      end
  end.

Definition scan_order (metadata_email : option str) (messages : list str)
  : option str :=
  let from_transcript := option_map lower (first_valid_match messages) in
  match metadata_email with
  | Some e => if valid e then Some (lower e) else from_transcript
  | None => from_transcript
  end.
End PriorityOrder.

(** The message text a transcript entry holds: none for an entry without a
    message, as the entry of a tool call, whose message is null. *)
Definition text_of (entry : json) : str :=
  match entry with
  | JObj d =>
      match lookup (py "message") d with
      | Some (JStr m) => m
      | _ => []
      end
  | _ => []
  end.

(** The text of a transcript entry of the expected shape: a dict whose
    [message] is a string, or missing. *)
Definition message_of (entry : json) : option str :=
  match entry with
  | JObj d =>
      match lookup (py "message") d with
      | None => Some []
      | Some (JStr m) => Some m
      | Some _ => None
      end
  | _ => None
  end.

Fixpoint messages_of (entries : list json) : option (list str) :=
  match entries with
  | [] => Some []
  | entry :: rest =>
      match message_of entry, messages_of rest with
      | Some m, Some ms => Some (m :: ms)
      | _, _ => None
      end
  end.

(** Conversation data of the expected shape, read as the metadata address
    (if any) and the message texts: a dict; its call-initiation data missing
    or a dict whose [email] is missing, null or a string; its transcript
    missing or a list of entries of the expected shape. *)
Definition well_shaped (conversation_data : json)
  : option (option str * list str) :=
  match conversation_data with
  | JObj d =>
      let metadata_email :=
        match lookup (py "conversation_initiation_client_data") d with
        | None => Some None
        | Some (JObj c) =>
            match lookup (py "email") c with
            | None | Some JNull => Some None
            | Some (JStr e) => Some (Some e)
            | Some _ => None
            end
        | Some _ => None
        end in
      let messages :=
        match lookup (py "transcript") d with
        | None => Some []
        | Some (JArr entries) => messages_of entries
        | Some _ => None
        end in
      match metadata_email, messages with
      | Some e, Some ms => Some (e, ms)
      | _, _ => None
      end
  | _ => None
  end.

Definition with_smtp (w : world) (n : nat) (s : option nat) : world :=
  {| n_list := n_list w; n_details := n_details w;
     n_generate := n_generate w; n_smtp := n; server := s |}.

Definition with_generate (w : world) (n : nat) : world :=
  {| n_list := n_list w; n_details := n_details w;
     n_generate := n; n_smtp := n_smtp w; server := server w |}.

(** *** What one call of the notifier amounts to *)

(** The first call on a session that raises, in the order [send_email]
    makes them. *)
Definition first_failure (s : smtp_script) : option exn :=
  match on_connect s, on_starttls s, on_login s, on_send_message s with
  | Some e, _, _, _ => Some e
  | None, Some e, _, _ => Some e
  | None, None, Some e, _ => Some e
  | None, None, None, Some e => Some e
  | None, None, None, None => None
  end.

(** The exception that composing the message raises, if any: the plain
    part is made first, then the HTML part. *)
Definition mime_failure `{Rendering} (summary : str) (conversation_id : json)
  : option exn :=
  if existsb is_surrogate (summary_text summary)
  then Some (Exn UnicodeEncodeError (utf8_error (summary_text summary)))
  else if existsb is_surrogate (html_message summary conversation_id)
  then Some (Exn UnicodeEncodeError
                 (utf8_error (html_message summary conversation_id)))
  else None.

(** The detail string [send_email] returns for an exception. *)
Definition detail_of (e : exn) : str :=
  if is_class SMTPAuthenticationError e then py "Authentication error"
  else exn_text e.

(** The calls made on session [i] once it is open, up to the first that
    raises, with the message handed over when none does. *)
Definition session_trace (i : nat) (s : smtp_script) (message : event)
  : list event :=
  Smtp i StartTls (on_starttls s)
  :: match on_starttls s with
     | Some _ => []
     | None =>
         Smtp i Login (on_login s)
         :: match on_login s with
            | Some _ => []
            | None =>
                Smtp i SendMessage (on_send_message s)
                :: match on_send_message s with
                   | Some _ => []
                   | None => [message]
                   end
            end
     end.

Definition logged_details (t : list event) : list json :=
  flat_map (fun ev => match ev with
                      | LogWrite (ConversationDetails id _) => [id]
                      | _ => []
                      end) t.

(** Events that reach a person or the audit log: a message handed to an
    SMTP session, a line written to the log. *)
Definition outward (ev : event) : bool :=
  match ev with
  | Message _ _ _ | LogWrite _ => true
  | _ => false
  end.

(** The address an event carries is in order: a message goes to the fixed
    recipient; an address written to the audit log validates and is its own
    lowercasing. *)
Definition address_ok `{UnicodeTables} (ev : event) : bool :=
  match ev with
  | Message to_email _ _ => str_eqb to_email RECIPIENT
  | LogWrite (ConversationEmail _ e) => valid e && str_eqb (lower e) e
  | _ => true
  end.

(** *** What one turn of the loop reads *)

(** The id of the newest conversation, as a turn of the loop reads it from
    the answer to its list request (nothing when the turn does not get that
    far). *)
Definition newest_id (reply : outcome json) : option json :=
  match reply with
  | Returned data =>
      if truthy data then
        match contains data (py "conversations") with
        | Returned true =>
            match getitem data (py "conversations") with
            | Returned conversations =>
                if truthy conversations then
                  match (latest <- getitem0 conversations ;;
                         getitem latest (py "conversation_id"))%exn with
                  | Returned id => Some id
                  | Raised _ => None
                  end
                else None
            | Raised _ => None
            end
        | _ => None
        end
      else None
  | Raised _ => None
  end.

(** The answer to a detail request is a conversation whose status is
    [done]. *)
Definition done_reply (reply : outcome json) : bool :=
  match reply with
  | Returned details =>
      truthy details
      && match get details (py "status") JNull with
         | Returned status => py_eq status (JStr (py "done"))
         | Raised _ => false
         end
  | Raised _ => false
  end.

Definition quiet (t : list event) : bool :=
  forallb (fun ev => negb (outward ev)) t.

(** The world after one more list request. *)
Definition after_list (w : world) : world :=
  {| n_list := S (n_list w); n_details := n_details w;
     n_generate := n_generate w; n_smtp := n_smtp w; server := server w |}.

(** The provider never lists as newest an id it listed as newest before
    another one: when the newest id of a later request equals that of an
    earlier one, it equals the newest id of every request in between. *)
Definition never_returns (E : env) : Prop :=
  forall i k j x y z,
    i < k -> k < j ->
    newest_id (http_list E i) = Some x ->
    newest_id (http_list E k) = Some y ->
    newest_id (http_list E j) = Some z ->
    py_eq z x = true -> py_eq z y = true.




(** *** Further notions *)

(** A line of the response that carries a usable address. *)
Definition usable_line `{UnicodeTables} (line : str) : bool :=
  startswith (py "Email:") line && usable_address (field_of line).

(** How often a character occurs. *)
Definition occurrences (c : char) (s : str) : nat :=
  length (filter (N.eqb c) s).

(** The messages handed to an SMTP session, the lines written to the audit
    log. *)
Definition sent (t : list event) : list event :=
  filter (fun ev => match ev with Message _ _ _ => true | _ => false end) t.

Definition written (t : list event) : list log_line :=
  flat_map (fun ev => match ev with LogWrite l => [l] | _ => [] end) t.

Definition is_sleep (ev : event) : bool :=
  match ev with Sleep _ => true | _ => false end.

Definition is_list_request (ev : event) : bool :=
  match ev with GetConversations _ => true | _ => false end.

(** A summary that counts: [if gemini_response:]. *)
Definition summary_of (g : option str) : option str :=
  match g with
  | Some ((_ :: _) as s) => Some s
  | _ => None
  end.

(** The lines one new conversation adds to the audit log: the status of the
    summary mail when there is a summary, the customer address when one was
    found, the details, the summary when there is one. *)
Definition audit_lines (conversation_id : json) (conversation_text : str)
           (email g : option str) (st : bool * str) : list log_line :=
  match summary_of g with
  | Some _ => [SummaryEmailStatus conversation_id (fst st) (snd st)]
  | None => []
  end
  ++ match summary_of email with
     | Some e => [ConversationEmail conversation_id e]
     | None => []
     end
  ++ [ConversationDetails conversation_id conversation_text]
  ++ match summary_of g with
     | Some s => [GeminiSummary conversation_id s]
     | None => []
     end.

(** [d.get(key, default)] on a dict. *)
Definition field (d : list (str * json)) (key : str) (default : json) : json :=
  match lookup key d with
  | Some x => x
  | None => default
  end.

(** The debugging branch of [process_conversation] gets through: the id is
    not the one it is for, or the console encodes the status and the
    transcript. *)
Definition debug_passes `{Rendering} (E : env) (d : list (str * json))
           (conversation_id : json) : bool :=
  negb (py_eq conversation_id (JStr DEBUG_ID))
  || (printable E (fstring (field d (py "status") (JStr (py "Unknown"))))
      && printable E (fstring (field d (py "transcript") (JArr [])))).

(** The world after one more detail request. *)
Definition after_detail (w : world) : world :=
  {| n_list := n_list w; n_details := S (n_details w);
     n_generate := n_generate w; n_smtp := n_smtp w; server := server w |}.

(** The events of polling: a list request, a sleep. *)
Definition is_poll (ev : event) : bool :=
  is_list_request ev || is_sleep ev.

(** The ids read off the conversations of a listing, one by one. *)
Definition ids_of (conversations : list json) (ids : list json) : Prop :=
  Forall2 (fun c i => getitem c (py "conversation_id") = Returned i)
          conversations ids.

(** None of the [k] detail requests from the [n]-th on is answered with a
    completed conversation. *)
Definition none_done (E : env) (n k : nat) : Prop :=
  forall j, j < k -> done_reply (http_details E (n + j)) = false.

(** *** Sample data *)

(** A rendering for samples: a string as it is, anything else as nothing. *)
Definition plain_rendering : Rendering :=
  {| format_value := fun v => match v with
                              | JStr s => s
                              | JNum 0 => py "0"
                              | _ => []
                              end;
     conversation_text_of := fun _ _ => py "Conversation Details";
     console_error := fun _ => py "codec can't encode character";
     utf8_error := fun _ => py "codec can't encode character" |}.

Definition smooth_session : smtp_script :=
  {| on_connect := None; on_starttls := None; on_login := None;
     on_send_message := None; on_quit := None |}.

Definition refused : exn := Exn ConnectionError (py "Connection refused").

Definition refusing_session : smtp_script :=
  {| on_connect := Some refused; on_starttls := None; on_login := None;
     on_send_message := None; on_quit := None |}.

Definition entry (role message : string) : json :=
  JObj [(py "role", JStr (py role)); (py "message", JStr (py message))].

Definition conversation (status : string) (client_data : list (str * json))
           (transcript : list json) : json :=
  JObj [(py "status", JStr (py status));
        (py "conversation_initiation_client_data", JObj client_data);
        (py "transcript", JArr transcript)].

Definition listing (ids : list string) : json :=
  JObj [(py "conversations",
         JArr (map (fun i => JObj [(py "conversation_id", JStr (py i))]) ids))].

Definition sample_response : str :=
  py "Email: None" ++ [NL] ++ py "Summary: The caller asked about a booking.".


(** A world whose model answers [text] and whose other services work. *)
Definition answering (text : str) : env :=
  {| SMTP_EMAIL := Some (py "hotel@example.com");
     SMTP_APP_PASSWORD := Some (py "app-password");
     http_list := fun _ => Returned (listing ["conv_a"%string]);
     http_details := fun _ => Returned (conversation "done" [] [entry "user" "hello"]);
     generate_content := fun _ => Returned text;
     smtp := fun _ => smooth_session;
     console := fun _ => false |}.


Definition mixed_case_response : str :=
  py "Email: John@Test.COM" ++ [NL] ++ py "Summary: The caller left an address.".

(** Metadata and transcript both hold a valid address. *)
Definition john : json :=
  conversation "done" [(py "email", JStr (py "John@Test.COM"))]
               [entry "agent" "How can I help?";
                entry "user" "write to jane@example.org please"].

(** The metadata field is a number; the transcript holds a valid address. *)
Definition numeric_email : json :=
  conversation "done" [(py "email", JNum 12345)]
               [entry "user" "reach me at x@y.com"].

(** An entry without text (a tool call) comes before the address. *)
Definition after_tool_call : json :=
  conversation "done" []
               [JObj [(py "role", JStr (py "agent")); (py "message", JNull)];
                entry "user" "reach me at x@y.com"].

(** The first match of the first message ends in a bar and a letter. *)
Definition with_bar : json :=
  conversation "done" []
               [entry "user" "a@b.c|d x@y.com"; entry "user" "p@q.org"].

(** A world whose services fail on the first call and work from the second
    on: the model raises once, the first SMTP connection is refused. *)
Definition flaky : env :=
  {| SMTP_EMAIL := Some (py "hotel@example.com");
     SMTP_APP_PASSWORD := Some (py "app-password");
     http_list := fun _ => Returned (listing ["conv_a"%string]);
     http_details := fun _ => Returned (conversation "done" [] [entry "user" "hello"]);
     generate_content := fun n =>
       match n with
       | O => Raised (Exn OtherException (py "503 unavailable"))
       | S _ => Returned sample_response
       end;
     smtp := fun n => match n with O => refusing_session | S _ => smooth_session end;
     console := fun _ => false |}.


(** A provider that lists [conv_1] and, below it, [conv_2] at start-up, when
    only [conv_2] is completed; then [conv_1] as the newest, now completed,
    then [conv_2] as the newest. *)
Definition seeded : env :=
  {| SMTP_EMAIL := Some (py "hotel@example.com");
     SMTP_APP_PASSWORD := Some (py "app-password");
     http_list := fun n =>
       Returned match n with
                | 0 => listing ["conv_1"%string; "conv_2"%string]
                | 1 => listing ["conv_1"%string]
                | _ => listing ["conv_2"%string]
                end;
     http_details := fun n =>
       Returned match n with
                | 0 => conversation "processing" [] []
                | _ => conversation "done" [] [entry "user" "hello"]
                end;
     generate_content := fun _ => Returned sample_response;
     smtp := fun _ => smooth_session;
     console := fun _ => false |}.

(** A provider that cannot be reached. *)
Definition timed_out : exn := Exn RequestException (py "Read timed out").

Definition offline : env :=
  {| SMTP_EMAIL := Some (py "hotel@example.com");
     SMTP_APP_PASSWORD := Some (py "app-password");
     http_list := fun _ => Raised timed_out;
     http_details := fun _ => Raised timed_out;
     generate_content := fun _ => Returned sample_response;
     smtp := fun _ => smooth_session;
     console := fun _ => false |}.

(** A provider that lists [conv_a] and cannot be reached for its details. *)
Definition details_down : env :=
  {| SMTP_EMAIL := Some (py "hotel@example.com");
     SMTP_APP_PASSWORD := Some (py "app-password");
     http_list := fun _ => Returned (listing ["conv_a"%string]);
     http_details := fun _ => Raised timed_out;
     generate_content := fun _ => Returned sample_response;
     smtp := fun _ => smooth_session;
     console := fun _ => false |}.

(** A display for samples: one fixed start time, the text of the
    exception. *)
Definition plain_display : Display :=
  {| start_time_text := fun _ => Returned (py "2025-06-16 12:00:00 IST");
     error_text := exn_text |}.

Section MatcherFacts.
Context `{UnicodeTables}.

Lemma rep_sound (R : Type) k (cont : option char -> str -> option R) s :
  forall min prev r,
    rep k min prev s cont = Some r ->
    exists m rest, s = m ++ rest /\ forallb (cls_mem k) m = true
                   /\ min <= length m /\ cont (prev_after prev m) rest = Some r.
Proof.
  induction s as [|c s IH]; intros min prev r Hr; simpl in Hr.
  - destruct min; [|discriminate].
    exists [], []. repeat split; auto.
  - destruct (cls_mem k c) eqn:Hc.
    + destruct (rep k (pred min) (Some c) s cont) eqn:Hrec.
      * injection Hr as <-.
        destruct (IH _ _ _ Hrec) as (m & rest & -> & Hm & Hlen & Hk).
        exists (c :: m), rest. simpl. rewrite Hc, Hm.
        repeat split; auto. lia.
      * destruct min; [|discriminate].
        exists [], (c :: s). repeat split; auto.
    + destruct min; [|discriminate].
      exists [], (c :: s). repeat split; auto.
Qed.

Lemma rep_complete (R : Type) k (cont : option char -> str -> option R) rest m :
  forall min prev r,
    forallb (cls_mem k) m = true -> min <= length m ->
    cont (prev_after prev m) rest = Some r ->
    exists r', rep k min prev (m ++ rest) cont = Some r'.
Proof.
  induction m as [|c m IH]; intros min prev r Hm Hlen Hk; simpl in *.
  - assert (min = 0) by lia. subst min.
    destruct rest as [|d rest]; simpl.
    + eauto.
    + destruct (cls_mem k d); [|eauto].
      destruct (rep k 0 (Some d) rest cont); eauto.
  - apply andb_true_iff in Hm as [Hc Hm]. rewrite Hc.
    destruct (IH (pred min) (Some c) r Hm ltac:(lia) Hk) as [r' Hr'].
    rewrite Hr'. eauto.
Qed.

Lemma run_sound p :
  forall prev s rest,
    run p prev s = Some rest -> exists m, s = m ++ rest /\ matches p prev m rest.
Proof.
  induction p as [|i p IH]; intros prev s rest Hrun; simpl in Hrun.
  - injection Hrun as <-. exists []. split; [reflexivity | constructor].
  - destruct i.
    + destruct prev; [discriminate|].
      destruct (IH _ _ _ Hrun) as (m & -> & Hm). exists m. split; auto.
      now constructor.
    + destruct (at_end s) eqn:He; [|discriminate].
      destruct (IH _ _ _ Hrun) as (m & -> & Hm). exists m. split; auto.
      now constructor.
    + destruct (word_boundary prev s) eqn:Hb; [|discriminate].
      destruct (IH _ _ _ Hrun) as (m & -> & Hm). exists m. split; auto.
      now constructor.
    + destruct s as [|d s]; [discriminate|].
      destruct (N.eqb d (ch c)) eqn:Hd; [|discriminate].
      apply N.eqb_eq in Hd. subst d.
      destruct (IH _ _ _ Hrun) as (m & -> & Hm). exists (ch c :: m).
      split; auto. now constructor.
    + destruct (rep_sound _ _ _ _ _ Hrun) as (m1 & r1 & -> & Hcls & Hlen & Hk).
      destruct (IH _ _ _ Hk) as (m2 & -> & Hm).
      exists (m1 ++ m2). rewrite app_assoc. split; auto.
      now constructor.
Qed.

Lemma run_complete p prev m rest :
  matches p prev m rest -> exists rest', run p prev (m ++ rest) = Some rest'.
Proof.
  induction 1 as [prev rest | p m rest _ IH | p prev m rest He _ IH
                 | p prev m rest Hb _ IH | c p prev m rest _ IH
                 | k min p prev m1 m2 rest Hcls Hlen _ IH]; simpl.
  - eauto.
  - exact IH.
  - rewrite He. exact IH.
  - rewrite Hb. exact IH.
  - rewrite N.eqb_refl. exact IH.
  - destruct IH as [r Hr]. rewrite <- app_assoc.
    eapply rep_complete; eauto.
Qed.

Lemma firstn_match (m rest : str) :
  firstn (length (m ++ rest) - length rest) (m ++ rest) = m.
Proof.
  rewrite length_app. replace (length m + length rest - length rest) with (length m) by lia.
  rewrite firstn_app, firstn_all, Nat.sub_diag. simpl. apply app_nil_r.
Qed.

Lemma run_group p prev s rest :
  run p prev s = Some rest ->
  s = firstn (length s - length rest) s ++ rest
  /\ matches p prev (firstn (length s - length rest) s) rest.
Proof.
  intros Hrun. destruct (run_sound _ _ _ Hrun) as (m & -> & Hm).
  rewrite firstn_match. auto.
Qed.

Lemma search_at_eq p prev s :
  search_at p prev s =
  match run p prev s with
  | Some rest => Some (firstn (length s - length rest) s)
  | None => match s with
            | c :: s' => search_at p (Some c) s'
            | [] => None
            end
  end.
Proof. destruct s; reflexivity. Qed.

(** What [search] returns is matched by the pattern where it stands. *)
Lemma search_at_sound p s :
  forall prev group0,
    search_at p prev s = Some group0 ->
    exists before prev' rest,
      s = before ++ group0 ++ rest /\ matches p prev' group0 rest.
Proof.
  induction s as [|c s IH]; intros prev g Hs; rewrite search_at_eq in Hs.
  - destruct (run p prev []) as [rest|] eqn:Hrun; [|discriminate].
    injection Hs as <-. destruct (run_group _ _ _ Hrun) as [Heq Hm].
    exists [], prev, rest. split; auto.
  - destruct (run p prev (c :: s)) as [rest|] eqn:Hrun.
    + injection Hs as <-. destruct (run_group _ _ _ Hrun) as [Heq Hm].
      exists [], prev, rest. split; auto.
    + destruct (IH _ _ Hs) as (before & prev' & rest & -> & Hm).
      exists (c :: before), prev', rest. split; auto.
Qed.
End MatcherFacts.

(* ================================================================== *)
(** ** validate_email *)

Section ValidationFacts.
Context `{UnicodeTables}.

Lemma validate_email_str s :
  validate_email (JStr s)
  = Returned (match s with [] => false | _ => re_match validate_pattern s end).
Proof. destruct s; reflexivity. Qed.

Lemma at_end_cases rest : at_end rest = true -> rest = [] \/ rest = [NL].
Proof.
  destruct rest as [|c [|d rest]]; simpl; intros He; auto; try discriminate.
  apply N.eqb_eq in He. subst. auto.
Qed.

Lemma matches_validate_pattern m rest :
  matches validate_pattern None m rest <-> email_shape m /\ at_end rest = true.
Proof.
  unfold validate_pattern. split.
  - intros Hm.
    inversion Hm as [| ? ? ? H1 | | | |]; subst; clear Hm.
    inversion H1 as [| | | | | ? ? ? ? loc m2 ? Hloc Hlloc H2]; subst; clear H1.
    inversion H2 as [| | | | ? ? ? m3 ? H3|]; subst; clear H2.
    inversion H3 as [| | | | | ? ? ? ? dom m4 ? Hdom Hldom H4]; subst; clear H3.
    inversion H4 as [| | | | ? ? ? m5 ? H5|]; subst; clear H4.
    inversion H5 as [| | | | | ? ? ? ? tld m6 ? Htld Hltld H6]; subst; clear H5.
    inversion H6 as [| | ? ? ? ? He H7 | | |]; subst; clear H6.
    inversion H7; subst; clear H7.
    simpl in He. rewrite app_nil_r. split; auto.
    exists loc, dom, tld. repeat split; auto.
  - intros [(loc & dom & tld & -> & Hlloc & Hloc & Hldom & Hdom & Hltld & Htld) He].
    constructor. apply m_rep; auto.
    constructor. apply m_rep; auto.
    constructor. rewrite <- (app_nil_r tld). apply m_rep; auto.
    constructor; [exact He | constructor].
Qed.

(** What the pattern accepts: the shape, or the shape followed by one
    newline (the [$] of [re] stands before a final newline too). *)
Lemma validate_email_iff s :
  validate_email (JStr s) = Returned true
  <-> email_shape s \/ exists s', s = s' ++ [NL] /\ email_shape s'.
Proof.
  rewrite validate_email_str. split.
  - intros Hv. destruct s as [|c s]; [discriminate|].
    injection Hv as Hv. unfold re_match in Hv.
    destruct (run validate_pattern None (c :: s)) as [rest|] eqn:Hrun;
      [|discriminate].
    destruct (run_sound _ _ _ Hrun) as (m & Heq & Hm).
    apply matches_validate_pattern in Hm as [Hshape He].
    rewrite Heq. destruct (at_end_cases _ He) as [-> | ->].
    + left. now rewrite app_nil_r.
    + right. eauto.
  - intros Hs.
    assert (exists m rest, s = m ++ rest /\ email_shape m /\ at_end rest = true)
      as (m & rest & -> & Hshape & He).
    { destruct Hs as [Hs | (s' & -> & Hs)].
      - exists s, []. rewrite app_nil_r. auto.
      - exists s', [NL]. auto. }
    assert (Hm : matches validate_pattern None m rest)
      by (apply matches_validate_pattern; auto).
    destruct (run_complete Hm) as [rest' Hrun].
    unfold re_match. rewrite Hrun.
    destruct Hshape as (loc & dom & tld & -> & Hl & _).
    destruct loc; [simpl in Hl; lia | reflexivity].
Qed.
End ValidationFacts.

(* ================================================================== *)
(** ** Characters of an address *)

Ltac bool_lia :=
  cbv [cls_mem local_cls domain_cls tld_cls existsb cls_item_mem between
       is_ascii lower_char ch N_of_ascii N_of_digits NL] in *;
  repeat match goal with
         | H : _ |- _ =>
             progress rewrite ?orb_true_iff, ?andb_true_iff, ?orb_false_iff,
               ?andb_false_iff, ?N.leb_le, ?N.leb_gt, ?N.eqb_eq, ?N.eqb_neq,
               ?N.ltb_lt, ?N.ltb_ge in H
         end;
  rewrite ?orb_true_iff, ?andb_true_iff, ?orb_false_iff, ?andb_false_iff,
    ?N.leb_le, ?N.leb_gt, ?N.eqb_eq, ?N.eqb_neq, ?N.ltb_lt, ?N.ltb_ge;
  simpl in *; try lia.

Lemma ascii_forall (P : char -> bool) :
  forallb P (map N.of_nat (seq 0 128)) = true ->
  forall c, is_ascii c = true -> P c = true.
Proof.
  intros Hall c Hc. rewrite forallb_forall in Hall. apply Hall.
  unfold is_ascii in Hc. apply N.ltb_lt in Hc.
  rewrite <- (N2Nat.id c). apply in_map, in_seq. lia.
Qed.

Lemma domain_in_local c : cls_mem domain_cls c = true -> cls_mem local_cls c = true.
Proof. intros Hc. bool_lia. Qed.

Lemma tld_in_local c : cls_mem tld_cls c = true -> cls_mem local_cls c = true.
Proof. intros Hc. bool_lia. Qed.

Lemma email_char_ascii c : email_char c = true -> is_ascii c = true.
Proof. unfold email_char. intros Hc. bool_lia. Qed.

Lemma lower_char_cls k c :
  In k [local_cls; domain_cls; tld_cls] ->
  cls_mem k c = true -> cls_mem k (lower_char c) = true.
Proof.
  intros Hk Hc.
  assert (Ha : is_ascii c = true).
  { apply email_char_ascii. unfold email_char. apply orb_true_iff. left.
    destruct Hk as [<- | [<- | [<- | []]]];
      auto using domain_in_local, tld_in_local. }
  revert Hc.
  refine (proj1 (Bool.implb_true_iff _ _) _).
  revert c Ha.
  destruct Hk as [<- | [<- | [<- | []]]];
    apply (ascii_forall (fun c => implb (cls_mem _ c) (cls_mem _ (lower_char c))));
    vm_compute; reflexivity.
Qed.

Lemma lower_char_idem c : lower_char (lower_char c) = lower_char c.
Proof.
  unfold lower_char.
  destruct (between (ch "A") (ch "Z") c) eqn:Hc.
  - destruct (between (ch "A") (ch "Z") (c + 32)%N) eqn:Hc'; auto.
    exfalso. bool_lia.
  - now rewrite Hc.
Qed.

Lemma lower_char_ascii c : is_ascii c = true -> is_ascii (lower_char c) = true.
Proof.
  apply (ascii_forall (fun c => is_ascii (lower_char c))). vm_compute. reflexivity.
Qed.

Lemma forallb_weaken (P Q : char -> bool) (s : str) :
  (forall c, P c = true -> Q c = true) ->
  forallb P s = true -> forallb Q s = true.
Proof.
  intros HPQ. rewrite !forallb_forall. auto.
Qed.

Lemma forallb_map_lower (P : char -> bool) (s : str) :
  (forall c, P c = true -> P (lower_char c) = true) ->
  forallb P s = true -> forallb P (map lower_char s) = true.
Proof.
  intros HP. induction s as [|c s IH]; simpl; auto.
  rewrite !andb_true_iff. intros [Hc Hs]. auto.
Qed.

Lemma email_shape_chars s : email_shape s -> forallb email_char s = true.
Proof.
  intros (loc & dom & tld & -> & _ & Hloc & _ & Hdom & _ & Htld).
  unfold email_char.
  rewrite forallb_app. simpl. rewrite forallb_app. simpl.
  rewrite (forallb_weaken _ _ loc (fun c Hc => orb_true_intro _ _ (or_introl Hc)) Hloc).
  rewrite (forallb_weaken _ _ dom
             (fun c Hc => orb_true_intro _ _ (or_introl (domain_in_local c Hc))) Hdom).
  rewrite (forallb_weaken _ _ tld
             (fun c Hc => orb_true_intro _ _ (or_introl (tld_in_local c Hc))) Htld).
  reflexivity.
Qed.

Lemma email_shape_map_lower s : email_shape s -> email_shape (map lower_char s).
Proof.
  intros (loc & dom & tld & -> & Hlloc & Hloc & Hldom & Hdom & Hltld & Htld).
  exists (map lower_char loc), (map lower_char dom), (map lower_char tld).
  rewrite !length_map, map_app. simpl. rewrite map_app. simpl.
  repeat split; auto;
    apply forallb_map_lower; auto; intros c; apply lower_char_cls; simpl; auto.
Qed.

Section LowerFacts.
Context `{UnicodeTables}.

Lemma lower_ascii s : forallb is_ascii s = true -> lower s = map lower_char s.
Proof. unfold lower. now intros ->. Qed.

Lemma lower_idem_ascii s : forallb is_ascii s = true -> lower (lower s) = lower s.
Proof.
  intros Ha. rewrite (lower_ascii _ Ha).
  rewrite lower_ascii by (apply forallb_map_lower; auto using lower_char_ascii).
  rewrite map_map. apply map_ext. apply lower_char_idem.
Qed.

Lemma email_shape_ascii s : email_shape s -> forallb is_ascii s = true.
Proof.
  intros Hs. apply email_shape_chars in Hs.
  revert Hs. apply forallb_weaken. apply email_char_ascii.
Qed.

Lemma email_shape_lower s : email_shape s -> email_shape (lower s).
Proof.
  intros Hs. rewrite lower_ascii by now apply email_shape_ascii.
  now apply email_shape_map_lower.
Qed.

Lemma validated_ascii s :
  validate_email (JStr s) = Returned true -> forallb is_ascii s = true.
Proof.
  intros Hv. apply validate_email_iff in Hv as [Hs | (s' & -> & Hs)].
  - now apply email_shape_ascii.
  - rewrite forallb_app, (email_shape_ascii Hs). reflexivity.
Qed.

(** Lowercasing keeps an address valid, and a lowercased address is its
    own lowercasing. *)
Lemma validate_email_lower s :
  validate_email (JStr s) = Returned true ->
  validate_email (JStr (lower s)) = Returned true /\ lower (lower s) = lower s.
Proof.
  intros Hv. pose proof (validated_ascii _ Hv) as Ha.
  split; [|now apply lower_idem_ascii].
  rewrite (lower_ascii _ Ha).
  apply validate_email_iff in Hv as [Hs | (s' & -> & Hs)];
    apply validate_email_iff.
  - left. now apply email_shape_map_lower.
  - right. exists (map lower_char s'). rewrite map_app. split; auto.
    now apply email_shape_map_lower.
Qed.
End LowerFacts.

(* ================================================================== *)
(** ** Lines *)

Lemma split_on_cons sep s : exists l ls, split_on sep s = l :: ls.
Proof.
  induction s as [|c s (l & ls & IH)]; simpl; eauto.
  destruct (N.eqb c sep); eauto. rewrite IH. eauto.
Qed.

Lemma join_split_on sep s : join sep (split_on sep s) = s.
Proof.
  induction s as [|c s IH]; simpl; auto.
  destruct (N.eqb c sep) eqn:Hc.
  - apply N.eqb_eq in Hc. subst c.
    destruct (split_on_cons sep s) as (l & ls & Hs). rewrite Hs in *.
    simpl. f_equal. exact IH.
  - destruct (split_on_cons sep s) as (l & ls & Hs). rewrite Hs in *.
    destruct ls; simpl in *; now rewrite <- IH.
Qed.

Lemma split_on_free sep s : forall l, In l (split_on sep s) -> ~ In sep l.
Proof.
  induction s as [|c s IH]; simpl.
  - intros l [<- | []]. auto.
  - destruct (N.eqb c sep) eqn:Hc.
    + intros l [<- | Hl]; auto.
    + destruct (split_on_cons sep s) as (l0 & ls & Hs). rewrite Hs in *.
      apply N.eqb_neq in Hc.
      intros l [<- | Hl].
      * intros [-> | Hin]; [congruence|]. apply (IH l0); simpl; auto.
      * apply IH. simpl. auto.
Qed.

Lemma split_on_line sep l : ~ In sep l -> split_on sep l = [l].
Proof.
  induction l as [|c l IH]; simpl; auto.
  intros Hn. destruct (N.eqb c sep) eqn:Hc.
  - apply N.eqb_eq in Hc. tauto.
  - rewrite IH by tauto. reflexivity.
Qed.

Lemma split_on_app sep l s :
  ~ In sep l -> split_on sep (l ++ sep :: s) = l :: split_on sep s.
Proof.
  induction l as [|c l IH]; simpl; intros Hn.
  - now rewrite N.eqb_refl.
  - destruct (N.eqb c sep) eqn:Hc.
    + apply N.eqb_eq in Hc. tauto.
    + rewrite IH by tauto. reflexivity.
Qed.

Lemma split_on_join sep ls :
  ls <> [] -> (forall l, In l ls -> ~ In sep l) ->
  split_on sep (join sep ls) = ls.
Proof.
  induction ls as [|l ls IH]; [congruence|]. intros _ Hfree.
  destruct ls as [|l' ls].
  - simpl. apply split_on_line. apply Hfree. simpl. auto.
  - change (join sep (l :: l' :: ls)) with (l ++ sep :: join sep (l' :: ls)).
    rewrite split_on_app by (apply Hfree; simpl; auto).
    f_equal. apply IH; [congruence|]. intros x Hx. apply Hfree. simpl in *. tauto.
Qed.

Lemma startswith_app p s : startswith p s = true -> s = p ++ skipn (length p) s.
Proof.
  revert s. induction p as [|c p IH]; intros s; simpl; auto.
  destruct s as [|d s]; [discriminate|].
  rewrite andb_true_iff, N.eqb_eq. intros [-> Hs]. f_equal. auto.
Qed.

Lemma startswith_prefix p s : startswith p (p ++ s) = true.
Proof.
  induction p as [|c p IH]; simpl; auto. now rewrite N.eqb_refl.
Qed.

Lemma str_eqb_eq s t : str_eqb s t = true <-> s = t.
Proof.
  revert t. induction s as [|c s IH]; intros [|d t]; simpl;
    try (split; (discriminate || reflexivity)).
  rewrite andb_true_iff, N.eqb_eq, IH. split.
  - intros [-> ->]. reflexivity.
  - intros [= -> ->]. auto.
Qed.

(* ================================================================== *)
(** ** The response functions, line by line *)

Section ResponseFacts.
Context `{UnicodeTables}.

Lemma isspace_email_char c : email_char c = true -> isspace c = false.
Proof.
  intros Hc. unfold isspace. rewrite (email_char_ascii _ Hc).
  unfold email_char in Hc. bool_lia.
Qed.

Lemma isspace_space : isspace (ch " ") = true.
Proof. reflexivity. Qed.

Lemma isspace_NL : isspace NL = true.
Proof. reflexivity. Qed.

Lemma lstrip_head s c t : lstrip s = c :: t -> isspace c = false.
Proof.
  induction s as [|d s IH]; simpl; [discriminate|].
  destruct (isspace d) eqn:Hd; auto. intros [= -> _]. exact Hd.
Qed.

Lemma strip_last x y c : strip x = y ++ [c] -> isspace c = false.
Proof.
  unfold strip. intros Hs.
  apply (f_equal (@rev char)) in Hs.
  rewrite rev_involutive, rev_app_distr in Hs. simpl in Hs.
  exact (lstrip_head _ Hs).
Qed.

Lemma lstrip_keep c s : isspace c = false -> lstrip (c :: s) = c :: s.
Proof. intros Hc. simpl. now rewrite Hc. Qed.

Lemma strip_fixed c m d :
  isspace c = false -> isspace d = false ->
  strip (c :: m ++ [d]) = c :: m ++ [d].
Proof.
  intros Hc Hd. unfold strip. rewrite lstrip_keep by exact Hc.
  assert (E : rev (c :: m ++ [d]) = d :: rev (c :: m)).
  { change (c :: m ++ [d]) with ((c :: m) ++ [d]). now rewrite rev_app_distr. }
  rewrite E, lstrip_keep by exact Hd. rewrite <- E. apply rev_involutive.
Qed.

Lemma strip_space s : strip (ch " " :: s) = strip s.
Proof. reflexivity. Qed.

Lemma email_shape_ends s :
  email_shape s ->
  exists c m d, s = c :: m ++ [d] /\ email_char c = true /\ email_char d = true.
Proof.
  intros Hs. pose proof (email_shape_chars Hs) as Hall.
  destruct Hs as (loc & dom & tld & -> & Hl & _ & _ & _ & Ht & _).
  destruct loc as [|c loc]; [simpl in Hl; lia|].
  destruct (exists_last (l := tld)) as (tld' & d & ->).
  { intros ->. simpl in Ht. lia. }
  exists c, (loc ++ ch "@" :: dom ++ ch "." :: tld'), d.
  rewrite forallb_forall in Hall. split; [|split].
  - simpl. rewrite <- !app_assoc. simpl. rewrite <- !app_assoc. reflexivity.
  - apply Hall. simpl. auto.
  - apply Hall. rewrite in_app_iff. right. right.
    rewrite in_app_iff. right. right. rewrite in_app_iff. simpl. auto.
Qed.

Lemma email_shape_strip s : email_shape s -> strip s = s.
Proof.
  intros Hs. destruct (email_shape_ends Hs) as (c & m & d & -> & Hc & Hd).
  apply strip_fixed; now apply isspace_email_char.
Qed.

Lemma usable_eq a : usable a = Returned (usable_address a).
Proof.
  unfold usable, usable_address. destruct a as [|c a]; auto.
  destruct (str_eqb (c :: a) (py "None")); simpl; auto.
Qed.

Lemma usable_address_valid a :
  usable_address a = true -> validate_email (JStr a) = Returned true.
Proof.
  rewrite validate_email_str. unfold usable_address.
  destruct a; [discriminate|]. rewrite andb_true_iff. now intros [_ ->].
Qed.

Lemma usable_address_strip x :
  usable_address (strip x) = true -> email_shape (strip x).
Proof.
  intros Hu. apply usable_address_valid, validate_email_iff in Hu.
  destruct Hu as [Hs | (s' & Heq & _)]; auto.
  apply strip_last in Heq. rewrite isspace_NL in Heq. discriminate.
Qed.

Lemma email_shape_usable a : email_shape a -> usable_address a = true.
Proof.
  intros Hs. unfold usable_address.
  assert (Hv : validate_email (JStr a) = Returned true)
    by (apply validate_email_iff; auto).
  rewrite validate_email_str in Hv.
  destruct a as [|c a]; [discriminate Hv|]. injection Hv as ->.
  rewrite andb_true_r. apply negb_true_iff.
  destruct (str_eqb (c :: a) (py "None")) eqn:He; auto.
  apply str_eqb_eq in He. rewrite He in Hs.
  destruct Hs as (loc & dom & tld & Heq & _).
  assert (Hin : In (ch "@") (py "None")).
  { rewrite Heq, in_app_iff. simpl. auto. }
  exfalso. vm_compute in Hin.
  repeat (destruct Hin as [Hin | Hin]; [discriminate Hin|]). exact Hin.
Qed.

Lemma index1_field line :
  startswith (py "Email:") line = true ->
  index1 (split_once (ch ":") line) = Returned (skipn 6 line).
Proof.
  intros Hp. rewrite (startswith_app _ _ Hp) at 1. reflexivity.
Qed.

Lemma lowercase_line_eq line : lowercase_line line = Returned (rewritten_line line).
Proof.
  unfold lowercase_line, rewritten_line, field_of.
  destruct (startswith (py "Email:") line) eqn:Hp; auto.
  rewrite (index1_field _ Hp). cbn [obind]. rewrite usable_eq. cbn [obind andb].
  destruct (usable_address (strip (skipn 6 line))); reflexivity.
Qed.

Lemma lowercase_lines_eq ls :
  lowercase_lines ls = Returned (map rewritten_line ls).
Proof.
  induction ls as [|l ls IH]; simpl; auto.
  rewrite lowercase_line_eq, IH. reflexivity.
Qed.

Lemma lowercase_gemini_response_eq s :
  lowercase_gemini_response s
  = match s with
    | [] => []
    | _ => join NL (map rewritten_line (split_on NL s))
    end.
Proof.
  unfold lowercase_gemini_response. destruct s; auto.
  now rewrite lowercase_lines_eq.
Qed.
End ResponseFacts.

(* ================================================================== *)
(** ** validate_email on the examples of the specification *)

Example validate_email_examples (U : UnicodeTables) :
  validate_email (JStr (py "a@b.co")) = Returned true
  /\ validate_email (JStr (py "a@b")) = Returned false
  /\ validate_email (JStr []) = Returned false
  /\ validate_email JNull = Returned false.
Proof. repeat split; reflexivity. Qed.

(** C6 (the code departs from the claim).  [validate_email] accepts an
    address followed by one newline, which is not of the shape
    [local@domain.tld]: the [$] that ends the pattern also stands before a
    final newline.  Apart from that newline the claim holds, see
    [validate_email_iff]. *)
Theorem validate_email_trailing_newline (U : UnicodeTables) :
  validate_email (JStr (py "a@b.co" ++ [NL])) = Returned true
  /\ ~ email_shape (py "a@b.co" ++ [NL]).
Proof.
  split; [reflexivity|].
  intros Hs. apply email_shape_chars in Hs. vm_compute in Hs. discriminate Hs.
Qed.

(* ================================================================== *)
(** ** lowercase_gemini_response *)

Section LowercaseResponse.
Context `{UnicodeTables}.

Lemma rewritten_line_cases line :
  (rewritten_line line = line)
  \/ (exists a, email_shape a /\ lower a = a /\ rewritten_line line = py "Email: " ++ a).
Proof.
  unfold rewritten_line.
  destruct (startswith (py "Email:") line && usable_address (field_of line)) eqn:Hc;
    auto.
  right. apply andb_true_iff in Hc as [_ Hu].
  unfold field_of in *. apply usable_address_strip in Hu.
  exists (lower (strip (skipn 6 line))). repeat split.
  - now apply email_shape_lower.
  - apply lower_idem_ascii. now apply email_shape_ascii.
Qed.

Lemma rewritten_email_line a :
  email_shape a -> lower a = a ->
  rewritten_line (py "Email: " ++ a) = py "Email: " ++ a.
Proof.
  intros Hs Hl. unfold rewritten_line.
  change (py "Email: " ++ a) with (py "Email:" ++ ch " " :: a).
  rewrite startswith_prefix. unfold field_of.
  replace (skipn 6 (py "Email:" ++ ch " " :: a)) with (ch " " :: a) by reflexivity.
  rewrite strip_space, (email_shape_strip Hs), (email_shape_usable Hs), Hl.
  reflexivity.
Qed.

Lemma rewritten_line_idem line :
  rewritten_line (rewritten_line line) = rewritten_line line.
Proof.
  destruct (rewritten_line_cases line) as [Heq | (a & Hs & Hl & ->)].
  - now rewrite !Heq.
  - now apply rewritten_email_line.
Qed.

Lemma rewritten_line_free line : ~ In NL line -> ~ In NL (rewritten_line line).
Proof.
  intros Hfree.
  destruct (rewritten_line_cases line) as [-> | (a & Hs & Hl & ->)]; auto.
  rewrite in_app_iff. intros [Hin | Hin].
  - vm_compute in Hin.
    repeat (destruct Hin as [Hin | Hin]; [discriminate Hin|]). exact Hin.
  - apply email_shape_chars in Hs. rewrite forallb_forall in Hs.
    apply Hs in Hin. vm_compute in Hin. discriminate Hin.
Qed.

Lemma response_lines s :
  split_on NL (lowercase_gemini_response s)
  = map rewritten_line (split_on NL s).
Proof.
  rewrite lowercase_gemini_response_eq. destruct s as [|c s]; [reflexivity|].
  apply split_on_join.
  - destruct (split_on_cons NL (c :: s)) as (l & ls & ->). discriminate.
  - intros l Hl. apply in_map_iff in Hl as (l0 & <- & Hl0).
    apply rewritten_line_free. now apply split_on_free in Hl0.
Qed.

Lemma lowercase_gemini_response_idem s :
  lowercase_gemini_response (lowercase_gemini_response s)
  = lowercase_gemini_response s.
Proof.
  rewrite (lowercase_gemini_response_eq (lowercase_gemini_response s)).
  destruct (lowercase_gemini_response s) as [|c r] eqn:Hr; [reflexivity|].
  rewrite <- Hr, response_lines, map_map.
  rewrite (map_ext _ _ rewritten_line_idem).
  rewrite <- response_lines. apply join_split_on.
Qed.

(** C7, as amended.  [lowercase_gemini_response] is idempotent; line by
    line, it writes a line that starts with [Email:] and holds a usable
    address anew, as [Email:], one space and the address in lower case, and
    keeps every other line, the [Summary:] line among them, as it is. *)
Theorem lowercase_gemini_response_lines :
  (forall s, lowercase_gemini_response (lowercase_gemini_response s)
             = lowercase_gemini_response s)
  /\ (forall s, split_on NL (lowercase_gemini_response s)
                = map rewritten_line (split_on NL s))
  /\ (forall line, rewritten_line line =
                   if startswith (py "Email:") line && usable_address (field_of line)
                   then py "Email: " ++ lower (field_of line) else line)
  /\ (forall line, startswith (py "Summary:") line = true ->
                   rewritten_line line = line).
Proof.
  split; [exact lowercase_gemini_response_idem|].
  split; [exact response_lines|].
  split; [reflexivity|].
  intros line Hl. unfold rewritten_line.
  rewrite (startswith_app _ _ Hl) at 1. reflexivity.
Qed.
End LowercaseResponse.

(** C7, counterexample.  On [Email:A@B.CO] the function inserts a space
    after the label: the result differs from its input by more than the
    case of letters. *)
Lemma lowercase_gemini_response_respaces :
  @lowercase_gemini_response no_unicode (py "Email:A@B.CO") = py "Email: a@b.co"
  /\ @lower no_unicode (@lowercase_gemini_response no_unicode (py "Email:A@B.CO"))
     <> @lower no_unicode (py "Email:A@B.CO").
Proof.
  split; [reflexivity|]. vm_compute. discriminate.
Qed.

(* ================================================================== *)
(** ** The two extractors *)

Section ExtractorFacts.
Context `{UnicodeTables}.

Lemma first_email_line_valid lines e :
  first_email_line lines = Returned (Some e) ->
  validate_email (JStr e) = Returned true /\ lower e = e.
Proof.
  induction lines as [|line rest IH]; cbn [first_email_line]; [discriminate|].
  destruct (startswith (py "Email:") line) eqn:Hp; auto.
  rewrite (index1_field _ Hp). cbn [obind]. rewrite usable_eq. cbn [obind].
  destruct (usable_address (strip (skipn 6 line))) eqn:Hu; auto.
  intros [= <-]. apply validate_email_lower. now apply usable_address_valid.
Qed.

Lemma extract_email_from_gemini_response_valid r e :
  extract_email_from_gemini_response r = Some e ->
  validate_email (JStr e) = Returned true /\ lower e = e.
Proof.
  unfold extract_email_from_gemini_response. destruct r as [|c r]; [discriminate|].
  destruct (first_email_line (split_on NL (c :: r))) as [o|] eqn:Hf; [|discriminate].
  intros ->. eapply first_email_line_valid; eauto.
Qed.

Lemma scan_transcript_valid entries e :
  scan_transcript entries = Returned (Some e) ->
  validate_email (JStr e) = Returned true /\ lower e = e.
Proof.
  induction entries as [|entry rest IH]; cbn [scan_transcript]; [discriminate|].
  destruct (get entry (py "message") (JStr [])) as [message|]; cbn [obind];
    [|discriminate].
  destruct (re_search_value email_pattern message) as [[group0|]|]; cbn [obind];
    auto; [|discriminate].
  destruct (validate_email (JStr group0)) as [[|]|] eqn:Hv; cbn [obind];
    auto; [|discriminate].
  intros [= <-]. now apply validate_email_lower.
Qed.

Lemma extract_customer_email_valid conversation_data e :
  extract_customer_email conversation_data = Returned (Some e) ->
  validate_email (JStr e) = Returned true /\ lower e = e.
Proof.
  unfold extract_customer_email.
  destruct (extract_customer_email_body conversation_data) as [r|] eqn:Hb;
    [|discriminate].
  intros [= ->]. revert Hb. unfold extract_customer_email_body.
  destruct (get conversation_data _ (JObj [])) as [client_data|]; cbn [obind];
    [|discriminate].
  destruct (get client_data _ JNull) as [email|]; cbn [obind]; [|discriminate].
  destruct (if truthy email then validate_email email else Returned false)
    as [[|]|] eqn:Hok; cbn [obind]; [| |discriminate].
  - destruct email; try discriminate. cbn [lower_value obind]. intros [= <-].
    destruct (truthy (JStr s)); [|discriminate].
    now apply validate_email_lower.
  - destruct (get conversation_data _ (JArr [])) as [transcript|]; cbn [obind];
      [|discriminate].
    destruct (iter transcript) as [entries|]; cbn [obind]; [|discriminate].
    apply scan_transcript_valid.
Qed.

Lemma extract_customer_email_returns conversation_data :
  exists r, extract_customer_email conversation_data = Returned r.
Proof.
  unfold extract_customer_email.
  destruct (extract_customer_email_body conversation_data); eauto.
Qed.

(** C9.  [extract_customer_email] returns on every value; when the body of
    its [try] raises, what it returns is [None]. *)
Theorem extract_customer_email_total conversation_data :
  (exists r, extract_customer_email conversation_data = Returned r)
  /\ (forall e, extract_customer_email_body conversation_data = Raised e ->
                extract_customer_email conversation_data = Returned None).
Proof.
  split; [apply extract_customer_email_returns|].
  unfold extract_customer_email. now intros e ->.
Qed.

(** *** The priority order *)

Lemma valid_eq a : validate_email (JStr a) = Returned (valid a).
Proof. apply validate_email_str. Qed.

Lemma email_pattern_shape prev group0 rest :
  matches email_pattern prev group0 rest ->
  existsb (N.eqb (ch "|")) group0 = false ->
  email_shape group0.
Proof.
  unfold email_pattern. intros Hm Hfree.
  inversion Hm as [| | | ? ? ? ? _ H1 | |]; subst; clear Hm.
  inversion H1 as [| | | | | ? ? ? ? loc m2 ? Hloc Hlloc H2]; subst; clear H1.
  inversion H2 as [| | | | ? ? ? m3 ? H3|]; subst; clear H2.
  inversion H3 as [| | | | | ? ? ? ? dom m4 ? Hdom Hldom H4]; subst; clear H3.
  inversion H4 as [| | | | ? ? ? m5 ? H5|]; subst; clear H4.
  inversion H5 as [| | | | | ? ? ? ? tld m6 ? Htld Hltld H6]; subst; clear H5.
  inversion H6 as [| | | ? ? ? ? _ H7 | |]; subst; clear H6.
  inversion H7; subst; clear H7.
  rewrite app_nil_r in *.
  exists loc, dom, tld. repeat split; auto.
  - revert Hloc. apply forallb_weaken. intros c Hc. bool_lia.
  - revert Hdom. apply forallb_weaken. intros c Hc. bool_lia.
  - assert (Hbar : existsb (N.eqb (ch "|")) tld = false).
    { revert Hfree. rewrite existsb_app. cbn [existsb].
      rewrite existsb_app. cbn [existsb]. rewrite !orb_false_iff. tauto. }
    rewrite forallb_forall in *. intros c Hc.
    assert (Hn : N.eqb (ch "|") c = false).
    { destruct (N.eqb (ch "|") c) eqn:E; auto.
      rewrite <- Hbar. symmetry. apply existsb_exists; eauto. }
    specialize (Htld c Hc). bool_lia.
Qed.

Lemma match_valid m group0 :
  re_search email_pattern m = Some group0 ->
  (valid group0 = true <-> existsb (N.eqb (ch "|")) group0 = false).
Proof.
  intros Hs. split.
  - intros Hv.
    assert (Hve : validate_email (JStr group0) = Returned true)
      by (rewrite valid_eq, Hv; reflexivity).
    assert (Hchars : forall s, email_shape s ->
                               existsb (N.eqb (ch "|")) s = false).
    { intros s Hshape. apply email_shape_chars in Hshape.
      destruct (existsb (N.eqb (ch "|")) s) eqn:Hex; auto.
      apply existsb_exists in Hex as (c & Hin & Hc).
      apply N.eqb_eq in Hc. subst c.
      rewrite forallb_forall in Hshape. specialize (Hshape _ Hin).
      vm_compute in Hshape. discriminate Hshape. }
    apply validate_email_iff in Hve as [Hshape | (s' & -> & Hshape)].
    + now apply Hchars.
    + rewrite existsb_app. apply orb_false_iff.
      split; [now apply Hchars | reflexivity].
  - intros Hfree.
    destruct (search_at_sound _ _ _ Hs) as (before & prev & rest & -> & Hm).
    pose proof (email_pattern_shape Hm Hfree) as Hshape.
    assert (Hv : validate_email (JStr group0) = Returned true)
      by (apply validate_email_iff; auto).
    rewrite valid_eq in Hv. now injection Hv.
Qed.

Lemma get_message entry m :
  message_of entry = Some m ->
  get entry (py "message") (JStr []) = Returned (JStr m).
Proof.
  destruct entry; try discriminate. simpl.
  destruct (lookup (py "message") d) as [[]|]; try discriminate;
    now intros [= ->].
Qed.

Lemma scan_transcript_order entries messages :
  messages_of entries = Some messages ->
  scan_transcript entries
  = Returned (option_map lower (first_valid_match messages)).
Proof.
  revert messages. induction entries as [|entry rest IH]; intros messages; simpl.
  - now intros [= <-].
  - destruct (message_of entry) as [m|] eqn:Hm; [|discriminate].
    destruct (messages_of rest) as [ms|]; [|discriminate].
    intros [= <-]. cbn [first_valid_match].
    rewrite (get_message _ Hm). cbn [obind re_search_value].
    destruct (re_search email_pattern m) as [group0|] eqn:Hs; [|now apply IH].
    rewrite valid_eq. cbn [obind].
    destruct (valid group0); [reflexivity|now apply IH].
Qed.

Lemma transcript_order d messages :
  match lookup (py "transcript") d with
  | None => Some []
  | Some (JArr entries) => messages_of entries
  | Some _ => None
  end = Some messages ->
  (transcript <- get (JObj d) (py "transcript") (JArr []) ;;
   entries <- iter transcript ;; scan_transcript entries)%exn
  = Returned (option_map lower (first_valid_match messages)).
Proof.
  intros Hms. cbn [get obind].
  destruct (lookup (py "transcript") d) as [[]|]; try discriminate;
    cbn [iter obind].
  - now apply scan_transcript_order.
  - injection Hms as <-. reflexivity.
Qed.

Lemma extract_customer_email_order conversation_data metadata_email messages :
  well_shaped conversation_data = Some (metadata_email, messages) ->
  extract_customer_email conversation_data
  = Returned (scan_order metadata_email messages).
Proof.
  intros Hshape.
  destruct conversation_data as [| | | | |d]; try discriminate.
  unfold well_shaped in Hshape.
  unfold extract_customer_email, extract_customer_email_body, scan_order.
  set (T := obind (get (JObj d) (py "transcript") (JArr [])) _).
  assert (HT : forall ms,
             match lookup (py "transcript") d with
             | None => Some []
             | Some (JArr entries) => messages_of entries
             | Some _ => None
             end = Some ms ->
             T = Returned (option_map lower (first_valid_match ms)))
    by (intros; subst T; now apply transcript_order).
  clearbody T.
  destruct (match lookup (py "transcript") d with
            | None => Some []
            | Some (JArr entries) => messages_of entries
            | Some _ => None
            end) as [ms|] eqn:Hms.
  2:{ destruct (lookup (py "conversation_initiation_client_data") d) as [[]|];
        try discriminate;
        destruct (lookup (py "email") d0) as [[]|]; discriminate. }
  specialize (HT ms eq_refl).
  cbn [get obind].
  destruct (lookup (py "conversation_initiation_client_data") d) as [[| | | | |c]|];
    try discriminate.
  - cbn [get obind].
    destruct (lookup (py "email") c) as [[| | |e| |]|]; try discriminate;
      injection Hshape as <- <-; cbn [truthy obind].
    + rewrite HT. reflexivity.
    + destruct e as [|x e].
      * cbn [obind valid]. rewrite HT. reflexivity.
      * rewrite valid_eq. cbn [obind].
        destruct (valid (x :: e)); cbn [obind lower_value].
        -- reflexivity.
        -- rewrite HT. reflexivity.
    + rewrite HT. reflexivity.
  - injection Hshape as <- <-. cbn [get lookup obind truthy].
    rewrite HT. reflexivity.
Qed.

Lemma first_valid_first messages :
  (forall group0, first_match messages = Some group0 -> valid group0 = true) ->
  option_map lower (first_valid_match messages)
  = match first_match messages with
    | Some group0 => if valid group0 then Some (lower group0) else None
    | None => None
    end.
Proof.
  induction messages as [|m rest IH]; [reflexivity|].
  cbn [first_match first_valid_match].
  destruct (re_search email_pattern m) as [group0|]; [|exact IH].
  intros Hv. now rewrite (Hv _ eq_refl).
Qed.

(** C8 (the code departs from the claim).  On conversation data of the
    expected shape, [extract_customer_email] returns the metadata address
    when it validates, otherwise the first match of the first message whose
    first match validates, in lower case, otherwise nothing.  That is the
    order of the claim whenever the first match across the transcript
    validates; a match fails to validate only when it holds a vertical bar.
    But an entry whose message is null, as the entry of a tool call is, ends
    the search: with no metadata address, such an entry and then a message
    that holds [x@y.com], the function returns nothing, where the order of
    the claim gives [x@y.com]. *)
Theorem extract_customer_email_priority :
  (forall conversation_data metadata_email messages,
      well_shaped conversation_data = Some (metadata_email, messages) ->
      extract_customer_email conversation_data
      = Returned (scan_order metadata_email messages))
  /\ (forall metadata_email messages,
         (forall group0, first_match messages = Some group0 ->
                         valid group0 = true) ->
         scan_order metadata_email messages
         = priority_order metadata_email messages)
  /\ (forall m group0,
         re_search email_pattern m = Some group0 ->
         (valid group0 = true <-> existsb (N.eqb (ch "|")) group0 = false))
  /\ (extract_customer_email after_tool_call = Returned None
      /\ after_tool_call
         = conversation "done" []
             [JObj [(py "role", JStr (py "agent")); (py "message", JNull)];
              entry "user" "reach me at x@y.com"]
      /\ priority_order None
           (map text_of
                [JObj [(py "role", JStr (py "agent")); (py "message", JNull)];
                 entry "user" "reach me at x@y.com"])
         = Some (py "x@y.com")).
Proof.
  split; [exact extract_customer_email_order|].
  split; [|split; [exact match_valid|repeat split; reflexivity]].
  intros metadata_email messages Hv. unfold scan_order, priority_order.
  now rewrite (first_valid_first _ Hv).
Qed.
End ExtractorFacts.

(* ================================================================== *)
(** ** Retrying *)

Lemma retry_returned A n wait p (f : M A) w a w' t :
  f w = (Returned a, w', t) -> retry n wait p f w = (Returned a, w', t).
Proof.
  intros Hf. destruct n; simpl; now rewrite Hf.
Qed.

(* ================================================================== *)
(** ** What the console encodes *)

Lemma printable_app E a b :
  printable E (a ++ b) = printable E a && printable E b.
Proof. apply forallb_app. Qed.

Lemma printable_ascii E s : forallb is_ascii s = true -> printable E s = true.
Proof.
  unfold printable. apply forallb_weaken. now intros c ->.
Qed.

(** Splits the texts under [printable] into their parts and drops the
    literals, which are ASCII. *)
Ltac printable_norm :=
  repeat rewrite printable_app;
  repeat match goal with
         | |- context [printable ?E (py ?s)] =>
             rewrite (@printable_ascii E (py s) eq_refl)
         | |- context [printable ?E [NL]] =>
             rewrite (@printable_ascii E [NL] eq_refl)
         end;
  rewrite ?andb_true_r; cbn [andb].

(* ================================================================== *)
(** ** send_email *)

Section NotifierFacts.
Context `{UnicodeTables} `{Rendering}.
Variable E : env.

Lemma printable_entering to_email conversation_id :
  printable E (entering to_email conversation_id)
  = printable E to_email && printable E (fstring conversation_id).
Proof.
  unfold entering. printable_norm. reflexivity.
Qed.

Lemma print_spec text w :
  print E text w
  = if printable E text then (Returned tt, w, [])
    else (Raised (Exn UnicodeEncodeError (console_error text)), w, []).
Proof.
  unfold print, console_write, lift. now destruct (printable E text).
Qed.

(** What the function under the decorator does, case by case. *)
Lemma send_email_call_spec to_email summary conversation_id w :
  send_email_call E to_email summary conversation_id w
  = if negb (printable E to_email && printable E (fstring conversation_id))
    then (Raised (Exn UnicodeEncodeError
                      (console_error (entering to_email conversation_id))),
          w, [])
    else if missing (SMTP_EMAIL E) || missing (SMTP_APP_PASSWORD E)
    then (Returned (false, py "Missing SMTP credentials"),
          with_smtp w (n_smtp w) None, [])
    else if negb (valid to_email)
    then (Returned (false, py "Invalid email address"),
          with_smtp w (n_smtp w) None, [])
    else match mime_failure summary conversation_id with
         | Some e => (Returned (false, exn_text e), with_smtp w (n_smtp w) None, [])
         | None =>
      (Returned match first_failure (smtp E (n_smtp w)) with
                | None => (true, py "Success")
                | Some e => (false, detail_of e)
                end,
       with_smtp w (S (n_smtp w)) match on_connect (smtp E (n_smtp w)) with
                         | None => Some (n_smtp w)
                         | Some _ => None
                         end,
       Smtp (n_smtp w) Connect (on_connect (smtp E (n_smtp w)))
       :: match on_connect (smtp E (n_smtp w)) with
          | Some _ => []
          | None => session_trace (n_smtp w) (smtp E (n_smtp w))
                      (Message to_email (summary_text summary) conversation_id)
                    ++ [Smtp (n_smtp w) Quit (on_quit (smtp E (n_smtp w)))]
          end)
         end.
Proof.
  unfold send_email_call. unfold bind at 1. rewrite print_spec, printable_entering.
  destruct (printable E to_email) eqn:Hto; [|reflexivity].
  destruct (printable E (fstring conversation_id)) eqn:Hid; [|reflexivity].
  cbn [andb negb].
  assert (Hp : forall s, forallb is_ascii s = true ->
                         forall w0, print E (s ++ to_email) w0 = (Returned tt, w0, [])).
  { intros s Hs w0. rewrite print_spec, printable_app, Hto.
    now rewrite (printable_ascii E s Hs). }
  assert (Hp' : forall w0, print E (py "Debug: Error sending email to "
                                    ++ to_email ++ py ": ") w0
                           = (Returned tt, w0, [])).
  { intros w0. rewrite print_spec. printable_norm. now rewrite Hto. }
  unfold bind, try_finally, try_clauses, set_server, get_server, lift, ret,
    with_smtp.
  cbn [n_list n_details n_generate n_smtp server].
  destruct (missing (SMTP_EMAIL E) || missing (SMTP_APP_PASSWORD E));
    [reflexivity|].
  rewrite valid_eq. destruct (valid to_email); cbn [negb].
  2:{ rewrite (Hp (py "Debug: Invalid email address: ") eq_refl). reflexivity. }
  unfold mime_failure, MIMEText, raise, ret.
  destruct (existsb is_surrogate (summary_text summary)).
  { cbn [select_handler is_class exn_class_of is_exception].
    rewrite Hp'. reflexivity. }
  destruct (existsb is_surrogate (html_message summary conversation_id)).
  { cbn [select_handler is_class exn_class_of is_exception].
    rewrite Hp'. reflexivity. }
  unfold smtp_new, smtp_call, first_failure, session_trace, detail_of,
    bind, emit, ret, raise, script_of.
  repeat (cbn [n_list n_details n_generate n_smtp server select_handler
               is_exception app];
          first
            [ progress rewrite ?Hp'
            | match goal with
              | |- context [print E (py ?s ++ to_email) ?w0] =>
                  rewrite (Hp (py s) eq_refl w0)
              | |- context [match on_connect ?s with _ => _ end] =>
                  destruct (on_connect s)
              | |- context [match on_starttls ?s with _ => _ end] =>
                  destruct (on_starttls s)
              | |- context [match on_login ?s with _ => _ end] =>
                  destruct (on_login s)
              | |- context [match on_send_message ?s with _ => _ end] =>
                  destruct (on_send_message s)
              | |- context [match on_quit ?s with _ => _ end] =>
                  destruct (on_quit s)
              | |- context [if is_class ?c ?e then _ else _] =>
                  destruct (is_class c e)
              end ]);
    reflexivity.
Qed.

(** The decorator retries nothing: the function under it returns a value
    for every exception raised inside its [try], and the one its first
    [print] raises is of no class that is retried. *)
Lemma send_email_once to_email summary conversation_id w :
  send_email E to_email summary conversation_id w
  = send_email_call E to_email summary conversation_id w.
Proof.
  unfold send_email.
  destruct (send_email_call E to_email summary conversation_id w)
    as [[r w'] t] eqn:Hc.
  pose proof (send_email_call_spec to_email summary conversation_id w) as Hs.
  rewrite Hc in Hs.
  destruct (negb (printable E to_email && printable E (fstring conversation_id))).
  { injection Hs as -> -> ->. unfold retry. rewrite Hc. reflexivity. }
  destruct (missing (SMTP_EMAIL E) || missing (SMTP_APP_PASSWORD E));
    [|destruct (negb (valid to_email));
      [|destruct (mime_failure summary conversation_id)]];
    injection Hs as -> -> ->; now apply retry_returned.
Qed.
End NotifierFacts.

Section NotifierClaims.
Context `{UnicodeTables} `{Rendering}.

(** Without credentials, or for a target that does not validate,
    [send_email] fails at once, when it has printed its first line: no
    session is opened, nothing is retried. *)
Lemma send_email_fails_fast E to_email summary conversation_id w :
  printable E to_email && printable E (fstring conversation_id) = true ->
  missing (SMTP_EMAIL E) || missing (SMTP_APP_PASSWORD E) || negb (valid to_email)
  = true ->
  exists detail,
    send_email E to_email summary conversation_id w
    = (Returned (false, detail), with_smtp w (n_smtp w) None, []).
Proof.
  rewrite send_email_once, send_email_call_spec. intros ->. cbn [negb].
  destruct (missing (SMTP_EMAIL E) || missing (SMTP_APP_PASSWORD E)); [eauto|].
  simpl. intros ->. eauto.
Qed.

(** C4 (the code departs from the claim).  The first connection is
    refused and the next would go through; [send_email] reports the failure
    after that one attempt: no sleep, no second session.  Its body returns a
    value for every exception, so the decorator has nothing to retry. *)
Theorem send_email_makes_one_attempt :
  send_email flaky RECIPIENT sample_response (JStr (py "conv_a")) start
  = (Returned (false, py "Connection refused"),
     with_smtp start 1 None,
     [Smtp 0 Connect (Some refused)])
  /\ (forall E to_email summary conversation_id w,
         send_email E to_email summary conversation_id w
         = send_email_call E to_email summary conversation_id w).
Proof.
  split; [|intros; apply send_email_once].
  rewrite send_email_once, send_email_call_spec. reflexivity.
Qed.
End NotifierClaims.

Section NotifierRelease.
Context `{UnicodeTables} `{Rendering}.

End NotifierRelease.

(* ================================================================== *)
(** ** send_to_gemini *)

Section SummaryFacts.
Context `{UnicodeTables} `{Rendering}.

(** What the function under the decorator does, case by case.  The answer
    is printed before it is returned: when the console cannot encode it, the
    handler takes over and the result is [None]. *)
Lemma send_to_gemini_call_spec E transcript w :
  send_to_gemini_call E transcript w
  = if negb (truthy transcript) then (Returned None, w, [])
    else match (entries <- iter transcript ;; transcript_lines entries)%exn with
         | Raised _ => (Returned None, w, [])
         | Returned lines =>
             (Returned match generate_content E (n_generate w) with
                       | Returned (c :: text) =>
                           if printable E (c :: text)
                           then Some (lowercase_gemini_response (c :: text))
                           else None
                       | _ => None
                       end,
              with_generate w (S (n_generate w)),
              [GenerateContent (prompt_of (join NL lines))])
         end.
Proof.
  unfold send_to_gemini_call, try_clauses, bind, lift, generate, ret,
    with_generate.
  destruct (negb (truthy transcript)); [reflexivity|].
  destruct (entries <- iter transcript ;; transcript_lines entries)%exn
    as [lines|e]; [|reflexivity].
  destruct (generate_content E (n_generate w)) as [[|c text]|e];
    try reflexivity.
  rewrite print_spec. printable_norm.
  destruct (printable E (c :: text)); reflexivity.
Qed.

(** The decorator never sees an exception: one call is all there is. *)
Lemma send_to_gemini_once E transcript w :
  send_to_gemini E transcript w = send_to_gemini_call E transcript w.
Proof.
  unfold send_to_gemini.
  destruct (send_to_gemini_call E transcript w) as [[r w'] t] eqn:Hc.
  pose proof (send_to_gemini_call_spec E transcript w) as Hs.
  rewrite Hc in Hs.
  destruct (negb (truthy transcript));
    [|destruct (entries <- iter transcript ;; transcript_lines entries)%exn];
    injection Hs as -> -> ->; now apply retry_returned.
Qed.

(** C2 (the code departs from the claim).  The model raises on the first
    call and would answer the second; [send_to_gemini] returns [None] after
    that one call: no sleep, no second attempt.  Its body returns [None] for
    every exception, so the decorator has nothing to retry. *)
Theorem send_to_gemini_makes_one_attempt :
  (exists prompt,
      send_to_gemini flaky (JArr [entry "user" "hello"]) start
      = (Returned None, with_generate start 1, [GenerateContent prompt]))
  /\ (forall E transcript w,
         send_to_gemini E transcript w = send_to_gemini_call E transcript w).
Proof.
  split; [|intros; apply send_to_gemini_once].
  rewrite send_to_gemini_once, send_to_gemini_call_spec.
  eexists. reflexivity.
Qed.

End SummaryFacts.


(* ================================================================== *)
(** ** The monitor loop *)

Lemma logged_details_app t1 t2 :
  logged_details (t1 ++ t2) = logged_details t1 ++ logged_details t2.
Proof. apply flat_map_app. Qed.

Lemma quiet_logged t : quiet t = true -> logged_details t = [].
Proof.
  induction t as [|ev t IH]; simpl; auto.
  rewrite andb_true_iff. intros [Hev Ht].
  destruct ev as [| | | | | |[]]; try discriminate; auto.
Qed.

Lemma quiet_address_ok `{UnicodeTables} t :
  quiet t = true -> forallb address_ok t = true.
Proof.
  induction t as [|ev t IH]; simpl; auto.
  rewrite andb_true_iff. intros [Hev Ht]. rewrite (IH Ht).
  destruct ev as [| | | | | |[]]; try discriminate; auto.
Qed.

Lemma polls_log lines : filter is_poll (map LogWrite lines) = [].
Proof. induction lines as [|l ls IH]; simpl; auto. Qed.

Section LoopFacts.
Context `{UnicodeTables} `{Rendering}.
Variable E : env.

Lemma print_ok text w :
  printable E text = true -> print E text w = (Returned tt, w, []).
Proof. intros Hp. now rewrite print_spec, Hp. Qed.

Lemma valid_RECIPIENT : valid RECIPIENT = true.
Proof. vm_compute. reflexivity. Qed.

Lemma rewritten_line_empty line : rewritten_line line = [] -> line = [].
Proof.
  destruct (rewritten_line_cases line) as [-> | (a & _ & _ & ->)]; auto.
  discriminate.
Qed.

Lemma lowercase_gemini_response_nonempty c text :
  lowercase_gemini_response (c :: text) <> [].
Proof.
  intros He. pose proof (response_lines (c :: text)) as Hl. rewrite He in Hl.
  pose proof (join_split_on NL (c :: text)) as Hj.
  destruct (split_on NL (c :: text)) as [|l [|l' ls]]; try discriminate Hl.
  injection Hl as Hl. symmetry in Hl. apply rewritten_line_empty in Hl.
  subst l. discriminate Hj.
Qed.

(** *** What has been printed can be printed again *)

Lemma printable_join lines :
  printable E (join NL lines) = forallb (printable E) lines.
Proof.
  induction lines as [|l ls IH]; [reflexivity|].
  destruct ls as [|l' ls]; [cbn; now rewrite andb_true_r|].
  change (join NL (l :: l' :: ls)) with (l ++ NL :: join NL (l' :: ls)).
  rewrite printable_app.
  change (NL :: join NL (l' :: ls)) with ([NL] ++ join NL (l' :: ls)).
  rewrite printable_app, IH. reflexivity.
Qed.

Lemma printable_rewritten line :
  printable E line = true -> printable E (rewritten_line line) = true.
Proof.
  intros Hl.
  destruct (rewritten_line_cases line) as [-> | (a & Ha & _ & ->)]; auto.
  rewrite printable_app.
  rewrite (printable_ascii E (py "Email: ") eq_refl).
  apply printable_ascii. now apply email_shape_ascii.
Qed.

Lemma printable_lowercase text :
  printable E text = true ->
  printable E (lowercase_gemini_response text) = true.
Proof.
  intros Ht. rewrite lowercase_gemini_response_eq.
  destruct text as [|c text]; [reflexivity|].
  rewrite printable_join.
  rewrite <- (join_split_on NL (c :: text)), printable_join in Ht.
  revert Ht. rewrite !forallb_forall. intros Ht line Hin.
  apply in_map_iff in Hin as (l & <- & Hl).
  apply printable_rewritten. auto.
Qed.

Lemma printable_email conversation_data e :
  extract_customer_email conversation_data = Returned (Some e) ->
  printable E e = true.
Proof.
  intros He. apply printable_ascii.
  destruct (extract_customer_email_valid _ He) as [Hv _].
  now apply validated_ascii.
Qed.

(** *** The steps of a turn *)

(** The summary step of [process_conversation]. *)
Lemma summary_step transcript w :
  exists g w1 t1,
    (if truthy transcript then send_to_gemini E transcript else ret None) w
    = (Returned g, w1, t1)
    /\ g <> Some []
    /\ n_list w1 = n_list w /\ n_smtp w1 = n_smtp w
    /\ written t1 = [] /\ sent t1 = [] /\ filter is_poll t1 = []
    /\ quiet t1 = true
    /\ forall s, g = Some s ->
                 printable E s = true
                 /\ exists raw, generate_content E (n_generate w) = Returned raw
                                /\ printable E raw = true
                                /\ s = lowercase_gemini_response raw.
Proof.
  destruct (truthy transcript) eqn:Ht.
  2:{ unfold ret. do 3 eexists. split; [reflexivity|].
      repeat split; auto; discriminate. }
  rewrite send_to_gemini_once, send_to_gemini_call_spec, Ht. cbn [negb].
  destruct (entries <- iter transcript ;; transcript_lines entries)%exn.
  2:{ do 3 eexists. split; [reflexivity|]. repeat split; auto; discriminate. }
  do 3 eexists. split; [reflexivity|].
  destruct (generate_content E (n_generate w)) as [[|c text]|e].
  - repeat split; auto; discriminate.
  - destruct (printable E (c :: text)) eqn:Hp.
    + split; [intros [= He]; now apply lowercase_gemini_response_nonempty in He|].
      do 6 (split; [reflexivity|]).
      intros s Hs.
      assert (Heq : s = lowercase_gemini_response (c :: text)) by congruence.
      split; [rewrite Heq; now apply printable_lowercase|].
      exists (c :: text). auto.
    + repeat split; auto; discriminate.
  - repeat split; auto; discriminate.
Qed.

(** The mail step of the loop, once the id has been printed. *)
Lemma mail_step c summary conversation_id w :
  printable E (fstring conversation_id) = true ->
  exists st w2 t2,
    send_email E RECIPIENT (c :: summary) conversation_id w = (Returned st, w2, t2)
    /\ n_list w2 = n_list w
    /\ written t2 = [] /\ filter is_poll t2 = []
    /\ logged_details t2 = [] /\ forallb address_ok t2 = true
    /\ sent t2 = (if fst st then [Message RECIPIENT (c :: summary) conversation_id]
                  else []).
Proof.
  intros Hid.
  rewrite send_email_once, send_email_call_spec, Hid.
  rewrite (printable_ascii E RECIPIENT eq_refl), valid_RECIPIENT.
  cbn [andb negb].
  destruct (missing (SMTP_EMAIL E) || missing (SMTP_APP_PASSWORD E)).
  { do 3 eexists. split; [reflexivity|]. repeat split; auto. }
  destruct (mime_failure (c :: summary) conversation_id).
  { do 3 eexists. split; [reflexivity|]. repeat split; auto. }
  do 3 eexists. split; [reflexivity|]. split; [reflexivity|].
  unfold first_failure, session_trace.
  destruct (on_connect (smtp E (n_smtp w))); [repeat split; auto|].
  destruct (on_starttls (smtp E (n_smtp w))); [repeat split; auto|].
  destruct (on_login (smtp E (n_smtp w))); [repeat split; auto|].
  destruct (on_send_message (smtp E (n_smtp w))); repeat split; auto.
Qed.

(** Everything the loop does for a new completed conversation whose id has
    been printed, in order: the debugging branch, which may raise; the
    summary step; the mail step when there is a summary; then the lines of
    the audit log. *)
Lemma handle_new_trace d conversation_id w :
  printable E (fstring conversation_id) = true ->
  if debug_passes E d conversation_id
  then
    exists g w1 t1 email,
      (if truthy (field d (py "transcript") (JArr []))
       then send_to_gemini E (field d (py "transcript") (JArr []))
       else ret None) w = (Returned g, w1, t1)
      /\ extract_customer_email (JObj d) = Returned email
      /\ match summary_of g with
         | Some s =>
             exists st w2 t2,
               send_email E RECIPIENT s conversation_id w1 = (Returned st, w2, t2)
               /\ handle_new E (JObj d) conversation_id w
                  = (Returned tt, w2,
                     t1 ++ t2
                     ++ map LogWrite
                          (audit_lines conversation_id
                             (conversation_text_of (JObj d) conversation_id)
                             email g st))
         | None =>
             handle_new E (JObj d) conversation_id w
             = (Returned tt, w1,
                t1 ++ map LogWrite
                        (audit_lines conversation_id
                           (conversation_text_of (JObj d) conversation_id)
                           email g (false, [])))
         end
  else
    exists e, handle_new E (JObj d) conversation_id w = (Raised e, w, []).
Proof.
  intros Hid.
  assert (Hpid : forall a b w0,
             forallb is_ascii a = true -> printable E b = true ->
             print E (a ++ fstring conversation_id ++ b) w0 = (Returned tt, w0, [])).
  { intros a b w0 Ha Hb. apply print_ok.
    now rewrite !printable_app, (printable_ascii E a Ha), Hid, Hb. }
  assert (Hpid' : forall a w0,
             forallb is_ascii a = true ->
             print E (a ++ fstring conversation_id) w0 = (Returned tt, w0, [])).
  { intros a w0 Ha. apply print_ok.
    now rewrite !printable_app, (printable_ascii E a Ha), Hid. }
  unfold debug_passes, field.
  (* the debugging branch *)
  assert (Hdebug :
            (if py_eq conversation_id (JStr DEBUG_ID)
             then
               (status <- lift (get (JObj d) (py "status") (JStr (py "Unknown"))) ;;
                print E (py "Debug: Status: " ++ fstring status) ;;
                transcript <- lift (get (JObj d) (py "transcript") (JArr [])) ;;
                print E (py "Debug: Transcript: " ++ fstring transcript))%io
             else ret tt) w
            = if negb (py_eq conversation_id (JStr DEBUG_ID))
                 || (printable E (fstring match lookup (py "status") d with
                                          | Some x => x
                                          | None => JStr (py "Unknown")
                                          end)
                     && printable E (fstring match lookup (py "transcript") d with
                                             | Some x => x
                                             | None => JArr []
                                             end))
              then (Returned tt, w, [])
              else (Raised (Exn UnicodeEncodeError
                                (console_error
                                   (if printable E (fstring match lookup (py "status") d with
                                                            | Some x => x
                                                            | None => JStr (py "Unknown")
                                                            end)
                                    then py "Debug: Transcript: "
                                         ++ fstring match lookup (py "transcript") d with
                                                    | Some x => x
                                                    | None => JArr []
                                                    end
                                    else py "Debug: Status: "
                                         ++ fstring match lookup (py "status") d with
                                                    | Some x => x
                                                    | None => JStr (py "Unknown")
                                                    end))),
                    w, [])).
  { destruct (py_eq conversation_id (JStr DEBUG_ID)); [|reflexivity].
    cbn [negb orb]. unfold bind, lift. cbn [get].
    rewrite !print_spec. printable_norm.
    destruct (printable E (fstring match lookup (py "status") d with
                                   | Some x => x
                                   | None => JStr (py "Unknown")
                                   end)); [|reflexivity].
    cbn [andb]. rewrite !print_spec. printable_norm.
    destruct (printable E (fstring match lookup (py "transcript") d with
                                   | Some x => x
                                   | None => JArr []
                                   end)); reflexivity. }
  destruct (negb (py_eq conversation_id (JStr DEBUG_ID))
            || (printable E (fstring match lookup (py "status") d with
                                     | Some x => x
                                     | None => JStr (py "Unknown")
                                     end)
                && printable E (fstring match lookup (py "transcript") d with
                                        | Some x => x
                                        | None => JArr []
                                        end))).
  2:{ eexists. unfold handle_new, process_conversation.
      unfold bind at 1. unfold bind at 1.
      rewrite Hdebug. reflexivity. }
  destruct (summary_step match lookup (py "transcript") d with
                         | Some x => x
                         | None => JArr []
                         end w) as (g & w1 & t1 & Hg & Hne & _ & _ & _ & _ & _ & _ & Hprint).
  destruct (extract_customer_email_returns (JObj d)) as [email He].
  exists g, w1, t1, email. split; [exact Hg|]. split; [exact He|].
  assert (Hemail : forall e, email = Some e -> printable E e = true).
  { intros e ->. now apply (printable_email _ He). }
  destruct g as [[|c summary]|]; [now destruct Hne| |]; cbn [summary_of].
  - destruct (Hprint _ eq_refl) as [Hs _].
    destruct (mail_step c summary conversation_id w1 Hid)
      as (st & w2 & t2 & Hm & _).
    exists st, w2, t2. split; [exact Hm|].
    unfold handle_new, process_conversation.
    unfold bind at 1. unfold bind at 1.
    rewrite Hdebug. unfold bind. unfold lift at 1. cbn [get].
    rewrite Hg. unfold lift. rewrite He.
    unfold log_write, emit, ret, audit_lines. cbv beta iota zeta.
    destruct email as [[|c0 e]|]; cbn [summary_of];
      repeat (first [ rewrite Hpid' by reflexivity
                    | rewrite Hpid by
                        (first [ reflexivity
                               | printable_norm;
                                 first [ exact Hs | now apply Hemail ] ])
                    | rewrite print_ok by
                        (printable_norm; first [ now apply Hemail | exact Hs ])
                    | rewrite Hm ];
              cbv beta iota zeta);
      rewrite ?app_nil_r, <- ?app_assoc; reflexivity.
  - unfold handle_new, process_conversation.
    unfold bind at 1. unfold bind at 1.
    rewrite Hdebug. unfold bind. unfold lift at 1. cbn [get].
    rewrite Hg. unfold lift. rewrite He.
    unfold log_write, emit, ret, audit_lines. cbv beta iota zeta.
    destruct email as [[|c0 e]|]; cbn [summary_of];
      repeat (first [ rewrite Hpid' by reflexivity
                    | rewrite Hpid by
                        (first [ reflexivity
                               | printable_norm; now apply Hemail ])
                    | rewrite print_ok by
                        (printable_norm; now apply Hemail) ];
              cbv beta iota zeta);
      rewrite ?app_nil_r, <- ?app_assoc; reflexivity.
Qed.
Lemma audit_lines_logged conversation_id text email g st :
  logged_details (map LogWrite (audit_lines conversation_id text email g st))
  = [conversation_id].
Proof.
  unfold audit_lines.
  destruct (summary_of g), (summary_of email); reflexivity.
Qed.

Lemma audit_lines_address_ok conversation_id text email g st :
  (forall e, summary_of email = Some e -> valid e && str_eqb (lower e) e = true) ->
  forallb address_ok (map LogWrite (audit_lines conversation_id text email g st))
  = true.
Proof.
  intros He. unfold audit_lines.
  destruct (summary_of g), (summary_of email) as [e|];
    cbn [app map forallb address_ok andb]; rewrite ?(He e eq_refl); reflexivity.
Qed.

(** A new completed conversation whose id has been printed is handled to
    the end, with one details line in the audit log, unless the debugging
    branch raises, before anything is done. *)
Lemma handle_new_facts d conversation_id w :
  printable E (fstring conversation_id) = true ->
  exists r w' t,
    handle_new E (JObj d) conversation_id w = (r, w', t)
    /\ n_list w' = n_list w
    /\ filter is_poll t = []
    /\ forallb address_ok t = true
    /\ (r = Returned tt /\ logged_details t = [conversation_id]
        \/ (exists e, r = Raised e) /\ t = []).
Proof.
  intros Hid. pose proof (handle_new_trace d conversation_id w Hid) as Ht.
  destruct (debug_passes E d conversation_id).
  2:{ destruct Ht as [e ->]. do 3 eexists. split; [reflexivity|].
      repeat split; eauto. }
  destruct Ht as (g & w1 & t1 & email & Hg & He & Hh).
  destruct (summary_step (field d (py "transcript") (JArr [])) w)
    as (g' & w1' & t1' & Hg' & Hne & Hn1 & _ & _ & _ & Hp1 & Hq1 & _).
  rewrite Hg in Hg'. injection Hg' as <- <- <-.
  assert (Hemail : forall e, summary_of email = Some e ->
                             valid e && str_eqb (lower e) e = true).
  { intros e Hs. destruct email as [[|c0 e0]|]; try discriminate Hs.
    injection Hs as <-.
    destruct (extract_customer_email_valid _ He) as [Hv Hl].
    rewrite valid_eq in Hv.
    assert (Hv' : valid (c0 :: e0) = true) by congruence.
    rewrite Hv'. now apply str_eqb_eq. }
  destruct g as [[|c summary]|]; [now destruct Hne| |]; cbn [summary_of] in Hh.
  - destruct Hh as (st & w2 & t2 & Hm & Hh).
    destruct (mail_step c summary conversation_id w1 Hid)
      as (st' & w2' & t2' & Hm' & Hn2 & _ & Hp2 & Hl2 & Ha2 & _).
    rewrite Hm in Hm'. injection Hm' as <- <- <-.
    do 3 eexists. split; [exact Hh|]. split; [congruence|].
    split; [now rewrite !filter_app, polls_log, Hp1, Hp2|].
    split.
    { rewrite !forallb_app, (quiet_address_ok _ Hq1), Ha2.
      now rewrite audit_lines_address_ok. }
    left. split; [reflexivity|].
    now rewrite !logged_details_app, (quiet_logged _ Hq1), Hl2, audit_lines_logged.
  - do 3 eexists. split; [exact Hh|]. split; [congruence|].
    split; [now rewrite !filter_app, polls_log, Hp1|].
    split.
    { rewrite !forallb_app, (quiet_address_ok _ Hq1).
      now rewrite audit_lines_address_ok. }
    left. split; [reflexivity|].
    now rewrite !logged_details_app, (quiet_logged _ Hq1), audit_lines_logged.
Qed.

(** One turn of the loop, case by case. *)
Lemma monitor_cycle_spec poll last w :
  exists r w' t,
    monitor_cycle E poll last w = (r, w', t)
    /\ n_list w' = S (n_list w)
    /\ forallb address_ok t = true
    /\ filter is_poll t
       = GetConversations 1 :: match r with
                               | Returned _ => [Sleep poll]
                               | Raised _ => []
                               end
    /\ match newest_id (http_list E (n_list w)) with
       | Some id =>
           if py_eq id last
           then r = Returned last /\ w' = after_list w
                /\ t = [GetConversations 1; Sleep poll]
           else if done_reply (http_details E (n_details w))
                then r = Returned id /\ logged_details t = [id]
                     \/ (exists e, r = Raised e) /\ quiet t = true
                else (r = Returned last \/ exists e, r = Raised e)
                     /\ quiet t = true
       | None => (r = Returned last \/ exists e, r = Raised e) /\ quiet t = true
       end.
Proof.
  unfold monitor_cycle, fetch_conversations, no_conversations_key,
    fetch_conversation_details, is_done, bind, lift, ret, sleep, emit,
    newest_id, done_reply.
  cbv beta iota zeta.
  destruct (http_list E (n_list w)) as [data|e].
  2:{ destruct (is_class RequestException e); cbn;
      do 3 eexists; do 4 (split; [reflexivity|]); split; eauto. }
  destruct (truthy data).
  2:{ cbn. do 3 eexists; do 4 (split; [reflexivity|]); split; eauto. }
  cbn [negb].
  destruct (contains data (py "conversations")) as [[|]|e].
  2,3: cbn; do 3 eexists; do 4 (split; [reflexivity|]); split; eauto.
  cbn [negb]. cbv beta iota zeta.
  destruct (getitem data (py "conversations")) as [conversations|e].
  2:{ cbn. do 3 eexists; do 4 (split; [reflexivity|]); split; eauto. }
  destruct (truthy conversations).
  2:{ cbn. do 3 eexists; do 4 (split; [reflexivity|]); split; eauto. }
  cbn [negb obind]. cbv beta iota zeta.
  destruct (getitem0 conversations) as [latest|e].
  2:{ cbn. do 3 eexists; do 4 (split; [reflexivity|]); split; eauto. }
  cbn [obind].
  destruct (getitem latest (py "conversation_id")) as [id|e].
  2:{ cbn. do 3 eexists; do 4 (split; [reflexivity|]); split; eauto. }
  destruct (py_eq id last).
  { cbn. do 3 eexists; do 4 (split; [reflexivity|]); auto. }
  cbn [negb]. cbv beta iota zeta.
  cbn [n_list n_details n_generate n_smtp server].
  destruct (http_details E (n_details w)) as [details|e].
  2:{ destruct (is_class RequestException e); cbn;
      do 3 eexists; do 4 (split; [reflexivity|]); split; eauto. }
  destruct (truthy details).
  2:{ cbn. do 3 eexists; do 4 (split; [reflexivity|]); split; eauto. }
  destruct details as [| | | | |d];
    try (cbn; do 3 eexists; do 4 (split; [reflexivity|]); split; eauto; fail).
  cbn [get andb]. cbv beta iota zeta.
  destruct (py_eq match lookup (py "status") d with
                  | Some x => x
                  | None => JNull
                  end (JStr (py "done"))).
  2:{ cbn. do 3 eexists; do 4 (split; [reflexivity|]); split; eauto. }
  rewrite print_spec. printable_norm.
  destruct (printable E (fstring id)) eqn:Hid.
  2:{ cbn. do 3 eexists; do 4 (split; [reflexivity|]). right. eauto. }
  match goal with
  | |- context [handle_new E (JObj d) id ?w1] =>
      destruct (handle_new_facts d id w1 Hid)
        as (r2 & w2 & t2 & -> & Hn & Hp & Ha & Hcase)
  end.
  cbn in Hn. cbv beta iota zeta.
  destruct Hcase as [[-> Hl] | [[e ->] ->]].
  - do 3 eexists. split; [reflexivity|]. split; [exact Hn|].
    split; [rewrite !forallb_app, Ha; reflexivity|].
    split.
    { cbn [app filter is_poll is_list_request is_sleep orb].
      rewrite !filter_app, Hp. reflexivity. }
    left. split; [reflexivity|].
    rewrite !logged_details_app, Hl. reflexivity.
  - do 3 eexists. split; [reflexivity|]. split; [exact Hn|].
    split; [reflexivity|]. split; [reflexivity|]. right. eauto.
Qed.




End LoopFacts.

(* ================================================================== *)
(** ** Start-up *)

Lemma bind_assoc A B C (c : M A) (f : A -> M B) (k : B -> M C) w :
  bind (bind c f) k w = bind c (fun x => bind (f x) k) w.
Proof.
  unfold bind. destruct (c w) as [[[a|e] w1] t1]; [|reflexivity].
  destruct (f a w1) as [[[b|e] w2] t2]; [|reflexivity].
  destruct (k b w2) as [[r w3] t3]. now rewrite app_assoc.
Qed.

Section StartupFacts.
Variable E : env.

(** One detail request and the test of its answer. *)
Lemma detail_step conversation_id w :
  exists r,
    bind (fetch_conversation_details E conversation_id) is_done w
    = (r, after_detail w, [GetConversation conversation_id])
    /\ forall b, r = Returned b -> b = done_reply (http_details E (n_details w)).
Proof.
  unfold bind, fetch_conversation_details, is_done, done_reply, lift, ret,
    after_detail.
  destruct (http_details E (n_details w)) as [details|e].
  2:{ destruct (is_class RequestException e); eexists; split;
      try reflexivity; intros b [= <-]; reflexivity. }
  destruct (truthy details); cbn [andb].
  2:{ eexists; split; [reflexivity|]. intros b [= <-]; reflexivity. }
  destruct (get details (py "status") JNull);
    eexists; (split; [reflexivity|]); intros b Hb; [now injection Hb|discriminate Hb].
Qed.

Lemma none_done_step n k :
  done_reply (http_details E n) = false ->
  none_done E (S n) k -> none_done E n (S k).
Proof.
  intros Hn Hk [|j] Hj.
  - now rewrite Nat.add_0_r.
  - rewrite Nat.add_succ_r. apply Hk. lia.
Qed.


End StartupFacts.



(** An id that start-up took from further down the listing is handled when
    it becomes the newest, though the provider never lists as newest an id
    it listed as newest before another one. *)
Lemma startup_id_handled_later :
  never_returns seeded
  /\ fst (fst (get_last_conversation_id seeded start)) = Returned (JStr (py "conv_2"))
  /\ logged_details
       (snd (@monitor_new_conversations no_unicode plain_rendering seeded 2 60 start))
     = [JStr (py "conv_1"); JStr (py "conv_2")].
Proof.
  split; [|split; vm_compute; reflexivity].
  intros i k j x y z Hik Hkj Hx Hy Hz Heq.
  destruct i as [|[|i]], k as [|[|k]], j as [|[|j]]; try lia;
    vm_compute in Hx, Hy, Hz;
    injection Hx as <-; injection Hy as <-; injection Hz as <-;
    first [ reflexivity | discriminate Heq ].
Qed.

(** C10.  An address returned by either extractor passes [validate_email]
    and is its own lowercasing; so is the fixed recipient; and in every turn
    of the loop each message goes to that recipient and each address written
    to the audit log validates and is its own lowercasing. *)
Theorem extracted_address_valid_lowercase (U : UnicodeTables) (R : Rendering) :
  (forall conversation_data e,
      extract_customer_email conversation_data = Returned (Some e) ->
      validate_email (JStr e) = Returned true /\ lower e = e)
  /\ (forall gemini_response e,
         extract_email_from_gemini_response gemini_response = Some e ->
         validate_email (JStr e) = Returned true /\ lower e = e)
  /\ (validate_email (JStr RECIPIENT) = Returned true
      /\ lower RECIPIENT = RECIPIENT)
  /\ (forall E poll last w r w' t,
         monitor_cycle E poll last w = (r, w', t) ->
         forallb address_ok t = true).
Proof.
  split; [exact (@extract_customer_email_valid U)|].
  split; [exact (@extract_email_from_gemini_response_valid U)|].
  split; [split; reflexivity|].
  intros E poll last w r w' t Hc.
  destruct (monitor_cycle_spec E poll last w)
    as (r1 & w1 & t1 & Hc1 & _ & Ha & _).
  rewrite Hc in Hc1. now injection Hc1 as <- <- <-.
Qed.

(* ================================================================== *)
(** ** The claims on sample data *)




(** C7 on a summary line. *)
Lemma lowercase_gemini_response_lines_witness :
  startswith (py "Summary:") (py "Summary: Hello THERE") = true
  /\ @rewritten_line no_unicode (py "Summary: Hello THERE") = py "Summary: Hello THERE".
Proof.
  split; [reflexivity|].
  exact (proj2 (proj2 (proj2 (@lowercase_gemini_response_lines no_unicode)))
               (py "Summary: Hello THERE") eq_refl).
Defined.

(** A metadata field that is no string ends the function as an entry
    without a message does: reading it raises, and the result is nothing,
    whatever the transcript holds. *)
Example extract_customer_email_numeric_field :
  @extract_customer_email no_unicode numeric_email = Returned None
  /\ @validate_email no_unicode (JNum 12345) = Raised (raise_of TypeError)
  /\ @first_match no_unicode [py "reach me at x@y.com"] = Some (py "x@y.com")
  /\ @valid no_unicode (py "x@y.com") = true.
Proof. repeat split; vm_compute; reflexivity. Qed.

(** The bar in the last bracket expression of the search pattern: the first
    match of the first message is [a@b.c|d], which does not validate; the
    valid [x@y.com] after it in the same message is not looked at, and the
    address of the next message is returned. *)
Example extract_customer_email_with_bar (U : UnicodeTables) :
  re_search email_pattern (py "a@b.c|d x@y.com") = Some (py "a@b.c|d")
  /\ valid (py "a@b.c|d") = false
  /\ extract_customer_email with_bar = Returned (Some (py "p@q.org")).
Proof. repeat split; reflexivity. Qed.

(** C8 on data that holds a valid address in both places. *)
Lemma extract_customer_email_priority_witness :
  well_shaped john
  = Some (Some (py "John@Test.COM"),
          [py "How can I help?"; py "write to jane@example.org please"])
  /\ @extract_customer_email no_unicode john = Returned (Some (py "john@test.com")).
Proof.
  split; [reflexivity|].
  exact (proj1 (@extract_customer_email_priority no_unicode) john _ _ eq_refl).
Defined.

(** C9 on a value that is not a dict. *)
Lemma extract_customer_email_total_witness :
  @extract_customer_email_body no_unicode (JArr []) = Raised (raise_of AttributeError)
  /\ @extract_customer_email no_unicode (JArr []) = Returned None.
Proof.
  split; [reflexivity|].
  exact (proj2 (@extract_customer_email_total no_unicode (JArr [])) _ eq_refl).
Defined.

(** C10 on the metadata address [John@Test.COM]. *)
Lemma extracted_address_valid_lowercase_witness :
  @extract_customer_email no_unicode john = Returned (Some (py "john@test.com"))
  /\ @validate_email no_unicode (JStr (py "john@test.com")) = Returned true
  /\ @lower no_unicode (py "john@test.com") = py "john@test.com".
Proof.
  split; [reflexivity|].
  exact (proj1 (@extracted_address_valid_lowercase no_unicode plain_rendering)
               john _ eq_refl).
Defined.

(* ================================================================== *)
(** ** Further properties: addresses and the model's response *)

Section ResponseExtras.
Context `{UnicodeTables}.

Lemma first_email_line_find lines :
  first_email_line lines
  = Returned (option_map (fun line => lower (field_of line))
                         (find usable_line lines)).
Proof.
  induction lines as [|line rest IH]; cbn [first_email_line find]; auto.
  unfold usable_line at 1, field_of.
  destruct (startswith (py "Email:") line) eqn:Hp; cbn [andb]; auto.
  rewrite (index1_field _ Hp). cbn [obind]. rewrite usable_eq. cbn [obind].
  destruct (usable_address (strip (skipn 6 line))); auto.
Qed.

Lemma extract_email_from_gemini_response_find gemini_response :
  extract_email_from_gemini_response gemini_response
  = option_map (fun line => lower (field_of line))
               (find usable_line (split_on NL gemini_response)).
Proof.
  unfold extract_email_from_gemini_response.
  rewrite first_email_line_find.
  destruct gemini_response; reflexivity.
Qed.

(** X1.  [extract_email_from_gemini_response] returns the address of the
    first line that starts with [Email:] and holds a usable address, in lower
    case, and [None] when the response has no such line; the handler of its
    [try] is never reached. *)
Theorem extract_email_from_gemini_response_first gemini_response :
  first_email_line (split_on NL gemini_response)
  = Returned (extract_email_from_gemini_response gemini_response)
  /\ extract_email_from_gemini_response gemini_response
     = option_map (fun line => lower (field_of line))
                  (find usable_line (split_on NL gemini_response)).
Proof.
  split; [|apply extract_email_from_gemini_response_find].
  rewrite extract_email_from_gemini_response_find.
  apply first_email_line_find.
Qed.

Lemma usable_line_rewritten line :
  usable_line (rewritten_line line) = usable_line line
  /\ (usable_line line = true ->
      lower (field_of (rewritten_line line)) = lower (field_of line)).
Proof.
  unfold rewritten_line. fold (usable_line line).
  destruct (usable_line line) eqn:Hu; [|split; [exact Hu | discriminate]].
  unfold usable_line in Hu. apply andb_true_iff in Hu as [_ Hu].
  unfold field_of in Hu. apply usable_address_strip in Hu.
  fold (field_of line) in Hu.
  pose proof (email_shape_lower Hu) as Hs.
  assert (Hf : field_of (py "Email: " ++ lower (field_of line))
               = lower (field_of line)).
  { unfold field_of at 1.
    change (skipn 6 (py "Email: " ++ lower (field_of line)))
      with (ch " " :: lower (field_of line)).
    rewrite strip_space. now apply email_shape_strip. }
  split.
  - assert (Hp : startswith (py "Email:")
                             (py "Email: " ++ lower (field_of line)) = true)
      by exact (startswith_prefix (py "Email:")
                                  (ch " " :: lower (field_of line))).
    unfold usable_line. now rewrite Hp, Hf, (email_shape_usable Hs).
  - intros _. rewrite Hf. apply lower_idem_ascii. now apply email_shape_ascii.
Qed.

Lemma find_usable_rewritten lines :
  option_map (fun line => lower (field_of line))
             (find usable_line (map rewritten_line lines))
  = option_map (fun line => lower (field_of line)) (find usable_line lines).
Proof.
  induction lines as [|line rest IH]; cbn [map find]; auto.
  destruct (usable_line_rewritten line) as [-> Hl].
  destruct (usable_line line); auto.
  cbn [option_map]. now rewrite Hl.
Qed.

(** X2.  Lowercasing the response first does not change the address that
    [extract_email_from_gemini_response] reads from it. *)
Theorem extract_after_lowercase gemini_response :
  extract_email_from_gemini_response (lowercase_gemini_response gemini_response)
  = extract_email_from_gemini_response gemini_response.
Proof.
  rewrite !extract_email_from_gemini_response_find.
  rewrite response_lines. apply find_usable_rewritten.
Qed.

Lemma occurrences_app c (a b : str) :
  occurrences c (a ++ b) = occurrences c a + occurrences c b.
Proof. unfold occurrences. now rewrite filter_app, length_app. Qed.

Lemma occurrences_none k (m : str) :
  (forall c, cls_mem k c = true -> cls_mem local_cls c = true) ->
  forallb (cls_mem k) m = true ->
  occurrences (ch "@") m = 0.
Proof.
  intros Hk Hm. induction m as [|c m IH]; [reflexivity|].
  cbn [forallb] in Hm. apply andb_true_iff in Hm as [Hc Hm].
  apply Hk in Hc. unfold occurrences in *. cbn [filter].
  destruct (N.eqb (ch "@") c) eqn:He; [|auto].
  apply N.eqb_eq in He. subst c. vm_compute in Hc. discriminate Hc.
Qed.

Lemma email_shape_parts s :
  email_shape s ->
  occurrences (ch "@") s = 1 /\ 6 <= length s.
Proof.
  intros (loc & dom & tld & -> & Hl & Hloc & Hd & Hdom & Ht & Htld).
  change (loc ++ ch "@" :: dom ++ ch "." :: tld)
    with (loc ++ [ch "@"] ++ dom ++ [ch "."] ++ tld).
  rewrite !occurrences_app.
  rewrite (occurrences_none local_cls loc (fun c Hc => Hc) Hloc).
  rewrite (occurrences_none domain_cls dom domain_in_local Hdom).
  rewrite (occurrences_none tld_cls tld tld_in_local Htld).
  rewrite !length_app. cbn [length].
  split; [reflexivity | lia].
Qed.

(** X3.  A string that [validate_email] accepts holds exactly one at sign,
    is at least six characters long and is ASCII throughout; it holds no
    white space, but for one newline that may end it. *)
Theorem validate_email_accepts s :
  validate_email (JStr s) = Returned true ->
  occurrences (ch "@") s = 1
  /\ 6 <= length s
  /\ forallb is_ascii s = true
  /\ (forallb (fun c => negb (isspace c)) s = true
      \/ exists s', s = s' ++ [NL]
                    /\ forallb (fun c => negb (isspace c)) s' = true).
Proof.
  intros Hv. pose proof (validated_ascii _ Hv) as Ha.
  assert (Hsp : forall a, email_shape a ->
                          forallb (fun c => negb (isspace c)) a = true).
  { intros a Hs. apply email_shape_chars in Hs. revert Hs.
    apply forallb_weaken. intros c Hc. now rewrite isspace_email_char. }
  apply validate_email_iff in Hv as [Hs | (s' & -> & Hs)].
  - destruct (email_shape_parts Hs) as [Hat Hlen]. repeat split; auto.
  - destruct (email_shape_parts Hs) as [Hat Hlen].
    rewrite occurrences_app, Hat, length_app.
    split; [reflexivity|]. split; [lia|]. split; [exact Ha|].
    right. exists s'. auto.
Qed.

(** X4.  The address [extract_email_from_gemini_response] returns has the
    shape [local@domain.tld] exactly: no newline ends it. *)
Theorem extract_email_from_gemini_response_shape gemini_response e :
  extract_email_from_gemini_response gemini_response = Some e ->
  email_shape e.
Proof.
  rewrite extract_email_from_gemini_response_find.
  destruct (find usable_line (split_on NL gemini_response)) as [line|] eqn:Hf;
    [|discriminate].
  intros [= <-]. apply find_some in Hf as [_ Hu].
  unfold usable_line in Hu. apply andb_true_iff in Hu as [_ Hu].
  apply email_shape_lower. now apply usable_address_strip.
Qed.
End ResponseExtras.

(* ================================================================== *)
(** ** Further properties: the SMTP sessions *)

Section SessionExtras.
Variable E : env.


End SessionExtras.

Section NotifierExtras.
Context `{UnicodeTables} `{Rendering}.
Variable E : env.

End NotifierExtras.

(* ================================================================== *)
(** ** Further properties: the summary *)

Section SummaryExtras.
Context `{UnicodeTables} `{Rendering}.
Variable E : env.

End SummaryExtras.

(* ================================================================== *)
(** ** Further properties: the id taken at start-up *)

Section StartupExtras.
Variable E : env.

Lemma first_done_spec conversations :
  forall w id w' t,
    first_done E conversations w = (Returned id, w', t) ->
    exists ids,
      t = map GetConversation ids
      /\ n_list w' = n_list w
      /\ n_details w' = n_details w + length ids
      /\ ids_of (firstn (length ids) conversations) ids
      /\ (id = JNull /\ length ids = length conversations
          /\ none_done E (n_details w) (length ids)
          \/ exists before,
              ids = before ++ [id]
              /\ done_reply (http_details E (n_details w + length before)) = true
              /\ none_done E (n_details w) (length before)).
Proof.
  induction conversations as [|c rest IH]; intros w id w' t.
  - cbn [first_done]. unfold ret. intros [= <- <- <-]. exists [].
    repeat split; auto. { constructor. }
    left. repeat split. intros j Hj. inversion Hj.
  - cbn [first_done]. unfold bind at 1. unfold lift at 1.
    destruct (getitem c (py "conversation_id")) as [cid|e] eqn:Hc;
      [|discriminate].
    rewrite <- (bind_assoc (fetch_conversation_details E cid) is_done
                  (fun done : bool => if done then ret cid else first_done E rest)).
    unfold bind at 1.
    destruct (detail_step E cid w) as (r & -> & Hr).
    destruct r as [done|e]; [|discriminate].
    specialize (Hr done eq_refl).
    destruct done.
    + unfold ret. intros [= <- <- <-]. exists [cid].
      split; [reflexivity|]. split; [reflexivity|].
      split; [simpl; lia|]. split.
      { cbn [length firstn]. constructor; [exact Hc|constructor]. }
      right. exists []. split; [reflexivity|]. split.
      * cbn [length]. now rewrite Nat.add_0_r.
      * intros j Hj. inversion Hj.
    + destruct (first_done E rest (after_detail w)) as [[r2 w2] t2] eqn:Hrest.
      intros [= -> <- <-].
      destruct (IH _ _ _ _ Hrest) as (ids & -> & Hl & Hd & Hids & Hcase).
      exists (cid :: ids). split; [reflexivity|]. split; [exact Hl|].
      split; [rewrite Hd; simpl; lia|]. split.
      { cbn [length firstn]. constructor; auto. }
      cbn [after_detail n_details] in Hcase.
      destruct Hcase as [(-> & Hlen & Hnone) | (before & -> & Hdone & Hnone)].
      * left. split; [reflexivity|]. split; [simpl; congruence|].
        cbn [length]. now apply none_done_step.
      * right. exists (cid :: before). split; [reflexivity|]. split.
        -- cbn [length]. now rewrite Nat.add_succ_r.
        -- cbn [length]. now apply none_done_step.
Qed.

(** X8.  When [get_last_conversation_id] returns, it has made one list
    request, for ten conversations, and then asked for the details of the
    listed conversations in order, stopping at the first that is completed:
    it returns that one's id.  It returns [None] only when none is completed
    and it has asked for every listed conversation: whenever the reply to the
    list request holds conversations, the ids asked for are the ids of all
    of them.  It does nothing else: no call of the model, no mail, no line in
    the audit log. *)
Theorem get_last_conversation_id_first_done w id w' t :
  get_last_conversation_id E w = (Returned id, w', t) ->
  exists ids,
    t = GetConversations 10 :: map GetConversation ids
    /\ n_list w' = S (n_list w)
    /\ n_details w' = n_details w + length ids
    /\ (ids = []
        \/ exists data conversations listed,
            http_list E (n_list w) = Returned data
            /\ getitem data (py "conversations") = Returned conversations
            /\ iter conversations = Returned listed
            /\ ids_of (firstn (length ids) listed) ids)
    /\ (id = JNull /\ none_done E (n_details w) (length ids)
        /\ (forall data conversations listed,
               http_list E (n_list w) = Returned data ->
               getitem data (py "conversations") = Returned conversations ->
               iter conversations = Returned listed ->
               length ids = length listed /\ ids_of listed ids)
        \/ exists before,
            ids = before ++ [id]
            /\ done_reply (http_details E (n_details w + length before)) = true
            /\ none_done E (n_details w) (length before)).
Proof.
  assert (Hnone :
            (forall data conversations listed,
                http_list E (n_list w) = Returned data ->
                getitem data (py "conversations") = Returned conversations ->
                iter conversations = Returned listed ->
                listed = []) ->
            exists ids : list json,
              GetConversations 10 :: [] = GetConversations 10 :: map GetConversation ids
              /\ n_list (after_list w) = S (n_list w)
              /\ n_details (after_list w) = n_details w + length ids
              /\ (ids = []
                  \/ exists data conversations listed,
                      http_list E (n_list w) = Returned data
                      /\ getitem data (py "conversations") = Returned conversations
                      /\ iter conversations = Returned listed
                      /\ ids_of (firstn (length ids) listed) ids)
              /\ (JNull = JNull /\ none_done E (n_details w) (length ids)
                  /\ (forall data conversations listed,
                         http_list E (n_list w) = Returned data ->
                         getitem data (py "conversations") = Returned conversations ->
                         iter conversations = Returned listed ->
                         length ids = length listed /\ ids_of listed ids)
                  \/ exists before,
                      ids = before ++ [JNull]
                      /\ done_reply (http_details E (n_details w + length before)) = true
                      /\ none_done E (n_details w) (length before))).
  { intros Hempty. exists []. split; [reflexivity|]. split; [reflexivity|].
    split; [simpl; lia|]. split; [auto|]. left. split; [reflexivity|]. split.
    - intros j Hj. inversion Hj.
    - intros data conversations listed H1 H2 H3.
      rewrite (Hempty _ _ _ H1 H2 H3). split; [reflexivity|constructor]. }
  unfold get_last_conversation_id, fetch_conversations, no_conversations_key,
    bind, lift, ret.
  fold (after_list w).
  destruct (http_list E (n_list w)) as [data|e] eqn:Hlist.
  2:{ destruct (is_class RequestException e); [|discriminate].
      cbn. intros [= <- <- <-]. apply Hnone. intros; discriminate. }
  destruct (truthy data) eqn:Htd; cbn [negb].
  2:{ intros [= <- <- <-]. apply Hnone.
      intros data' conversations listed [= <-] Hg _.
      destruct data as [| | | | |[|kv d]]; try discriminate Hg;
        discriminate Htd. }
  destruct (contains data (py "conversations")) as [[|]|e] eqn:Hc; cbn [negb];
    [| |discriminate].
  2:{ intros [= <- <- <-]. apply Hnone.
      intros data' conversations listed [= <-] Hg _.
      destruct data as [| | | | |d]; try discriminate Hg.
      cbn [contains getitem] in Hc, Hg.
      destruct (lookup (py "conversations") d); discriminate. }
  destruct (getitem data (py "conversations")) as [conversations|e] eqn:Hget;
    [|discriminate].
  destruct (truthy conversations) eqn:Htc; cbn [negb].
  2:{ intros [= <- <- <-]. apply Hnone.
      intros data' conversations' listed [= <-] Hg Hi.
      assert (conversations' = conversations) by congruence. subst conversations'.
      destruct conversations as [| | |[|c s]|[|x l]|[|kv d]];
        try discriminate Hi; try discriminate Htc;
        cbn in Hi; now injection Hi as <-. }
  destruct (iter conversations) as [listed|e] eqn:Hiter; [|discriminate].
  destruct (first_done E listed (after_list w)) as [[r2 w2] t2] eqn:Hfd.
  cbn [app]. intros [= -> <- <-].
  destruct (first_done_spec _ _ Hfd) as (ids & -> & Hl & Hd & Hids & Hcase).
  exists ids. split; [reflexivity|]. split; [exact Hl|]. split; [exact Hd|].
  split; [right; eauto 7|].
  cbn [after_list n_details] in Hcase.
  destruct Hcase as [(-> & Hlen & Hn) | Hcase]; [left|right; exact Hcase].
  split; [reflexivity|]. split; [exact Hn|].
  intros data' conversations' listed' [= <-] Hg Hi.
  assert (conversations' = conversations) by congruence. subst conversations'.
  assert (listed' = listed) by congruence. subst listed'.
  split; [exact Hlen|].
  rewrite Hlen, firstn_all in Hids. exact Hids.
Qed.
End StartupExtras.

(* ================================================================== *)
(** ** Further properties: what is done for a new conversation *)

Section AuditExtras.
Context `{UnicodeTables} `{Rendering}.
Variable E : env.


End AuditExtras.

(* ================================================================== *)
(** ** Further properties: a turn whose request fails *)

Section TurnExtras.
Context `{UnicodeTables} `{Rendering}.
Variable E : env.

(** X11.  A list request that fails.  When it fails with a
    [RequestException], the turn keeps the last seen id, does nothing else
    and sleeps: the loop goes on.  An exception of another class leaves the
    turn, before the sleep. *)
Theorem monitor_cycle_list_failure poll last w e :
  http_list E (n_list w) = Raised e ->
  monitor_cycle E poll last w
  = if is_class RequestException e
    then (Returned last, after_list w, [GetConversations 1; Sleep poll])
    else (Raised e, after_list w, [GetConversations 1]).
Proof.
  intros He.
  unfold monitor_cycle, fetch_conversations, no_conversations_key, bind, lift,
    ret, sleep, emit, after_list.
  rewrite He. destruct (is_class RequestException e); reflexivity.
Qed.

(** X12.  A detail request that fails, for a newest conversation that is
    not the last seen one.  With a [RequestException] the turn keeps the last
    seen id, so that the conversation is asked for again in the next turn;
    nothing is mailed or logged.  An exception of another class leaves the
    turn, before the sleep. *)
Theorem monitor_cycle_detail_failure poll last w id e :
  newest_id (http_list E (n_list w)) = Some id ->
  py_eq id last = false ->
  http_details E (n_details w) = Raised e ->
  monitor_cycle E poll last w
  = if is_class RequestException e
    then (Returned last, after_detail (after_list w),
          [GetConversations 1; GetConversation id; Sleep poll])
    else (Raised e, after_detail (after_list w),
          [GetConversations 1; GetConversation id]).
Proof.
  unfold newest_id. intros Hnew Hneq He.
  unfold monitor_cycle, fetch_conversations, no_conversations_key,
    fetch_conversation_details, is_done, bind, lift, ret, sleep, emit,
    after_list, after_detail.
  cbv beta iota zeta.
  destruct (http_list E (n_list w)) as [data|e0]; [|discriminate].
  destruct (truthy data); [|discriminate]. cbn [negb].
  destruct (contains data (py "conversations")) as [[|]|e0]; try discriminate.
  cbn [negb]. cbv beta iota zeta.
  destruct (getitem data (py "conversations")) as [conversations|e0];
    [|discriminate].
  destruct (truthy conversations); [|discriminate].
  cbn [negb obind] in *. cbv beta iota zeta.
  destruct (getitem0 conversations) as [latest|e0]; [|discriminate].
  cbn [obind] in *.
  destruct (getitem latest (py "conversation_id")) as [id'|e0]; [|discriminate].
  injection Hnew as ->. rewrite Hneq. cbn [negb]. cbv beta iota zeta.
  cbn [n_list n_details n_generate n_smtp server].
  rewrite He. destruct (is_class RequestException e); reflexivity.
Qed.
End TurnExtras.

(* ================================================================== *)
(** ** Further properties: start-up *)

Section StartExtras.
Context `{UnicodeTables} `{Rendering}.
Variable E : env.



End StartExtras.

Section MainExtras.
Context `{UnicodeTables} `{Rendering}.
Variable E : env.
Variables ELEVEN_LABS_API_KEY GEMINI_API_KEY : option str.

End MainExtras.

(* ================================================================== *)
(** ** Further properties: the displayed text *)

Section DisplayExtras.
Context `{Rendering} `{Display}.
Variable E : env.

Lemma display_line_eq entry :
  display_line entry
  = (l <- transcript_line entry ;; Returned (l ++ [NL]))%exn.
Proof.
  unfold display_line, transcript_line.
  destruct entry; try reflexivity.
  cbn [get obind]. f_equal.
  repeat (rewrite <- ?app_assoc; cbn [app]; f_equal).
Qed.

Lemma display_lines_eq entries :
  display_lines entries
  = (ls <- transcript_lines entries ;;
     Returned (map (fun l => l ++ [NL]) ls))%exn.
Proof.
  induction entries as [|entry rest IH]; [reflexivity|].
  cbn [display_lines transcript_lines]. rewrite display_line_eq, IH.
  destruct (transcript_line entry); [|reflexivity]. cbn [obind].
  destruct (transcript_lines rest); reflexivity.
Qed.

Lemma concat_lines lines :
  lines <> [] ->
  concat (map (fun l => l ++ [NL]) lines) = join NL lines ++ [NL].
Proof.
  induction lines as [|l ls IH]; [congruence|]. intros _.
  destruct ls as [|l' ls]; [cbn; now rewrite app_nil_r|].
  cbn [map concat join] in *. rewrite IH by discriminate.
  rewrite <- !app_assoc. reflexivity.
Qed.

Lemma transcript_lines_length entries lines :
  transcript_lines entries = Returned lines -> length lines = length entries.
Proof.
  revert lines. induction entries as [|entry rest IH]; intros lines.
  - intros [= <-]. reflexivity.
  - cbn [transcript_lines]. destruct (transcript_line entry); [|discriminate].
    cbn [obind]. destruct (transcript_lines rest); [|discriminate].
    intros [= <-]. simpl. f_equal. now apply IH.
Qed.

(** X15.  What [display_conversation_details] returns for a conversation
    with a transcript, when the metadata is a dict (or absent), the start
    time can be formatted and every entry of the transcript can be read.  The
    text is the header, with the conversation id, the status, the start time
    and the call duration, followed by the transcript, and that transcript
    is, line for line, the text that [send_to_gemini] puts into its prompt,
    closed by a newline.  The function prints the text inside its [try]:
    when the console encodes it, the text comes back with the transcript;
    when it does not, what comes back is the error text of the
    [UnicodeEncodeError] and an empty list. *)
Theorem display_shows_prompt_transcript d m conversation_id start_time lines :
  field d (py "metadata") (JObj []) = JObj m ->
  (if truthy (field m (py "start_time_unix_secs") (JNum 0))
   then start_time_text (field m (py "start_time_unix_secs") (JNum 0))
   else Returned (py "Unknown")) = Returned start_time ->
  truthy (field d (py "transcript") (JArr [])) = true ->
  (entries <- iter (field d (py "transcript") (JArr [])) ;;
   transcript_lines entries)%exn = Returned lines ->
  display_conversation_details E (JObj d) conversation_id
  = if printable E
         (display_header (format_value conversation_id)
            (format_value (field d (py "status") (JStr (py "Unknown"))))
            start_time
            (format_value (field m (py "call_duration_secs") (JNum 0)))
          ++ join NL lines ++ [NL])
    then (display_header (format_value conversation_id)
            (format_value (field d (py "status") (JStr (py "Unknown"))))
            start_time
            (format_value (field m (py "call_duration_secs") (JNum 0)))
          ++ join NL lines ++ [NL],
          field d (py "transcript") (JArr []))
    else (py "Error displaying conversation details: "
          ++ error_text
               (Exn UnicodeEncodeError
                  (console_error
                     (display_header (format_value conversation_id)
                        (format_value (field d (py "status") (JStr (py "Unknown"))))
                        start_time
                        (format_value (field m (py "call_duration_secs") (JNum 0)))
                      ++ join NL lines ++ [NL]))),
          JArr []).
Proof.
  intros Hm Hstart Htr Hlines.
  unfold display_conversation_details, display_conversation_details_body.
  cbn [get obind]. fold (field d (py "transcript") (JArr [])).
  fold (field d (py "status") (JStr (py "Unknown"))).
  fold (field d (py "metadata") (JObj [])).
  rewrite Hm. cbn [get obind].
  fold (field m (py "start_time_unix_secs") (JNum 0)).
  fold (field m (py "call_duration_secs") (JNum 0)).
  rewrite Hstart. cbn [obind]. rewrite Htr. cbn [negb].
  destruct (iter (field d (py "transcript") (JArr []))) as [entries|e] eqn:Hiter;
    [|discriminate Hlines].
  cbn [obind] in *. rewrite display_lines_eq, Hlines. cbn [obind].
  rewrite concat_lines.
  2:{ intros ->. apply transcript_lines_length in Hlines.
      destruct entries; [|discriminate Hlines].
      destruct (field d (py "transcript") (JArr [])) as [| | |[|]|[|]|[|]];
        discriminate. }
  unfold console_write.
  destruct (printable E _); reflexivity.
Qed.
End DisplayExtras.

(* ================================================================== *)
(** ** The further properties on sample data *)

(** X3 on an address of the specification. *)
Lemma validate_email_accepts_witness :
  @validate_email no_unicode (JStr (py "john@test.com")) = Returned true
  /\ occurrences (ch "@") (py "john@test.com") = 1
  /\ 6 <= length (py "john@test.com")
  /\ forallb is_ascii (py "john@test.com") = true.
Proof.
  split; [reflexivity|].
  destruct (@validate_email_accepts no_unicode (py "john@test.com") eq_refl)
    as (Hat & Hlen & Hascii & _).
  auto.
Defined.

(** X4 on a response whose address is in mixed case. *)
Lemma extract_email_from_gemini_response_shape_witness :
  @extract_email_from_gemini_response no_unicode mixed_case_response
  = Some (py "john@test.com")
  /\ email_shape (py "john@test.com").
Proof.
  split; [reflexivity|].
  exact (@extract_email_from_gemini_response_shape no_unicode
           mixed_case_response (py "john@test.com") eq_refl).
Defined.

(** X6 on a recipient the console cannot encode, and on one it can. *)
Example send_email_entry_line :
  @send_email no_unicode plain_rendering (answering sample_response)
    (py "jos" ++ [233%N] ++ py "@example.com") sample_response
    (JStr (py "conv_a")) start
  = (Raised (Exn UnicodeEncodeError (py "codec can't encode character")),
     start, [])
  /\ exists w' t,
      @send_email no_unicode plain_rendering (answering sample_response)
        RECIPIENT sample_response (JStr (py "conv_a")) start
      = (Returned (true, py "Success"), w', t)
      /\ sent t = [Message RECIPIENT sample_response (JStr (py "conv_a"))].
Proof.
  split; [vm_compute; reflexivity|].
  do 2 eexists. split; vm_compute; reflexivity.
Qed.

(** X7 on an answer the console cannot encode: the model was asked, and no
    summary comes back. *)
Example send_to_gemini_unprintable_answer :
  @send_to_gemini no_unicode plain_rendering
    (answering (py "Summary: caf" ++ [233%N])) (JArr [entry "user" "hello"])
    start
  = (Returned None, with_generate start 1,
     [GenerateContent (prompt_of (py "[0s] user: hello"))]).
Proof. vm_compute. reflexivity. Qed.

(** X8 on a provider that lists one completed conversation. *)
Lemma get_last_conversation_id_first_done_witness :
  get_last_conversation_id (answering sample_response) start
  = (Returned (JStr (py "conv_a")), after_detail (after_list start),
     [GetConversations 10; GetConversation (JStr (py "conv_a"))])
  /\ exists ids,
      [GetConversations 10; GetConversation (JStr (py "conv_a"))]
      = GetConversations 10 :: map GetConversation ids
      /\ n_details (after_detail (after_list start))
         = n_details start + length ids.
Proof.
  split; [reflexivity|].
  destruct (@get_last_conversation_id_first_done (answering sample_response)
              start (JStr (py "conv_a")) (after_detail (after_list start))
              [GetConversations 10; GetConversation (JStr (py "conv_a"))]
              eq_refl)
    as (ids & Ht & _ & Hd & _).
  exists ids. split; [exact Ht | exact Hd].
Defined.

(** X8 on a provider none of whose two listed conversations is completed:
    both are asked for. *)
Example get_last_conversation_id_asks_all :
  get_last_conversation_id
    {| SMTP_EMAIL := None; SMTP_APP_PASSWORD := None;
       http_list := fun _ => Returned (listing ["conv_1"%string; "conv_2"%string]);
       http_details := fun _ => Returned (conversation "processing" [] []);
       generate_content := fun _ => Returned [];
       smtp := fun _ => smooth_session;
       console := fun _ => false |} start
  = (Returned JNull, after_detail (after_detail (after_list start)),
     [GetConversations 10; GetConversation (JStr (py "conv_1"));
      GetConversation (JStr (py "conv_2"))]).
Proof. reflexivity. Qed.



(** X11 on a provider that cannot be reached. *)
Lemma monitor_cycle_list_failure_witness :
  http_list offline (n_list start) = Raised timed_out
  /\ @monitor_cycle no_unicode plain_rendering offline 60 JNull start
     = (Returned JNull, after_list start, [GetConversations 1; Sleep 60]).
Proof.
  split; [reflexivity|].
  exact (@monitor_cycle_list_failure no_unicode plain_rendering offline 60
           JNull start timed_out eq_refl).
Defined.

(** X12 on a provider that cannot be reached for the details. *)
Lemma monitor_cycle_detail_failure_witness :
  newest_id (http_list details_down (n_list start)) = Some (JStr (py "conv_a"))
  /\ py_eq (JStr (py "conv_a")) JNull = false
  /\ http_details details_down (n_details start) = Raised timed_out
  /\ @monitor_cycle no_unicode plain_rendering details_down 60 JNull start
     = (Returned JNull, after_detail (after_list start),
        [GetConversations 1; GetConversation (JStr (py "conv_a")); Sleep 60]).
Proof.
  repeat (split; [reflexivity|]).
  exact (@monitor_cycle_detail_failure no_unicode plain_rendering details_down
           60 JNull start (JStr (py "conv_a")) timed_out
           eq_refl eq_refl eq_refl).
Defined.


(** X15 on a conversation of one line. *)
Lemma display_shows_prompt_transcript_witness :
  @display_conversation_details plain_rendering plain_display
    (answering sample_response)
    (conversation "done" [] [entry "user" "hello"]) (JStr (py "conv_a"))
  = (display_header (py "conv_a") (py "done") (py "Unknown") (py "0")
     ++ py "[0s] user: hello" ++ [NL],
     JArr [entry "user" "hello"]).
Proof.
  exact (@display_shows_prompt_transcript plain_rendering plain_display
           (answering sample_response)
           [(py "status", JStr (py "done"));
            (py "conversation_initiation_client_data", JObj []);
            (py "transcript", JArr [entry "user" "hello"])]
           [] (JStr (py "conv_a")) (py "Unknown") [py "[0s] user: hello"]
           eq_refl eq_refl eq_refl eq_refl).
Defined.

(** X15 on a line the console cannot encode: the error text comes back, and
    no transcript. *)
Example display_unprintable_line :
  @display_conversation_details plain_rendering plain_display
    (answering sample_response)
    (JObj [(py "transcript",
            JArr [JObj [(py "role", JStr (py "user"));
                        (py "message", JStr (py "caf" ++ [233%N]))]])])
    (JStr (py "conv_a"))
  = (py "Error displaying conversation details: codec can't encode character",
     JArr []).
Proof. vm_compute. reflexivity. Qed.
